(** * Slayers-insurance: the car-insurance registry bot ([index.js])

    A shallow embedding of the expiry classifier, the pager, the record
    store and the command handlers of [index.js], and the properties of
    the specification that are stated about them.

    Conventions of the embedding.
    - An instant (a JS [Date] time value, the value of a moment) is an
      integer number of milliseconds since the epoch, in [Z]; the quotient
      of [moment#diff] is an exact rational in [Q], so [Math.ceil] is the
      mathematical ceiling. The range limit of [Date] and the rounding of
      IEEE doubles are outside the model.
    - What the program takes from its libraries and its host is collected
      in the record [Env]: the system clock (an oracle indexed by the
      number of readings made so far), the offset table of the zone
      Asia/Kolkata, the offset of the host's local zone, the date
      formatters of moment, [String.prototype.toUpperCase], the regular
      expression engine of the database and [process.env].
    - Mutable objects that the program shares (moment objects, arrays)
      live in heaps of the state [World]; a reference is an index.
    - Handlers are written in the monad [JS]: state passing over [World]
      with three outcomes, a value, an exception, or non-termination. *)

From Stdlib Require Import ZArith QArith Qround String Ascii List Lia.
From stdpp Require Import base list strings pretty.

Open Scope string_scope.
Open Scope list_scope.
Open Scope Z_scope.

(** ** The environment *)

Record Env := {
  (** [clock n] is what the [n]-th reading of the system clock returns
      ([moment()], [new Date()], [Date.now()]). *)
  clock : nat -> Z;
  (** Offset of Asia/Kolkata at an instant, in minutes east of UTC
      (moment's [utcOffset()] after [.tz('Asia/Kolkata')]). *)
  zoneOffset : Z -> Z;
  (** ECMAScript's LocalTZA(t, true) and LocalTZA(t, false) for the host
      zone, in milliseconds. *)
  hostTZA_utc : Z -> Z;
  hostTZA_local : Z -> Z;
  (** moment's [format('DD MMM YYYY')] and [format('DD MMM YYYY hh:mm A')],
      on the wall-clock value of the moment. *)
  format_DD_MMM_YYYY : Z -> string;
  format_DD_MMM_YYYY_hh_mm_A : Z -> string;
  (** moment's [fromNow()]: the instant and the clock reading it makes. *)
  fromNowText : Z -> Z -> string;
  toUpperCase : string -> string;
  (** The database's [$regex] with [$options: 'i']: whether the server
      accepts the pattern, and whether pattern finds a match in subject. *)
  regexValid : string -> bool;
  regexSearchI : string -> string -> bool;
  process_env : string -> option string;
  (** [client.channels.cache.get(id)] finds a channel. *)
  channelCached : option string -> bool
}.

(** A template literal prints a missing variable as [undefined]. *)
Definition envText (E : Env) (name : string) : string :=
  match process_env E name with Some v => v | None => "undefined" end.

(** ** Expiry classifier *)

Definition MS_PER_DAY : Z := 86400000.

(** Wall-clock value of an instant in Asia/Kolkata. *)
Definition wallClock (E : Env) (t : Z) : Z := t + zoneOffset E t * 60000.

(** [this.diff(that, 'days', true)] for two moments of the zone:
    [(this - that - zoneDelta) / 864e5] with
    [zoneDelta = (that.utcOffset() - this.utcOffset()) * 6e4]. *)
Definition diff_days (E : Env) (this that : Z) : Q :=
  let zoneDelta := (zoneOffset E that - zoneOffset E this) * 60000 in
  (inject_Z (this - that - zoneDelta) / inject_Z MS_PER_DAY)%Q.

Definition Math_ceil (x : Q) : Z := Qceiling x.

(** The body of [getDaysLeft] once [moment()] has been read as [now]. *)
Definition daysLeftAt (E : Env) (now expiryDate : Z) : Z :=
  Math_ceil (diff_days E expiryDate now).

Definition getStatusEmoji (daysLeft : Z) : string :=
  if daysLeft <=? 0 then "❌ EXPIRED"
  else if daysLeft <=? 3 then "🚨 URGENT"
  else if daysLeft <=? 7 then "⚠️ WARNING"
  else "✅ ACTIVE".

(** ** Pager: [chunkArray] *)

(** [array.splice(0, deleteCount)]: the removed elements and what is left
    in [array]. The count is clamped to [0 .. array.length]. *)
Definition splice0 {A} (deleteCount : Z) (array : list A) : list A * list A :=
  (take (Z.to_nat deleteCount) array, drop (Z.to_nat deleteCount) array).

(** The [while (array.length)] loop, on the pair of the array being
    consumed and [results]; [None] when the fuel runs out. *)
Fixpoint chunkLoop {A} (fuel : nat) (chunkSize : Z) (array : list A)
    (results : list (list A)) : option (list (list A) * list A) :=
  match fuel with
  | O => None
  | S fuel' =>
      match array with
      | [] => Some (results, array)
      | _ :: _ =>
          let '(removed, rest) := splice0 chunkSize array in
          chunkLoop fuel' chunkSize rest (results ++ [removed])
      end
  end.

(** [chunkArray] on the contents of its argument: the returned chunks and
    the final contents of the argument array. One iteration per element
    is enough whenever the loop stops at all. *)
Definition chunkArrayOn {A} (array : list A) (chunkSize : Z)
    : option (list (list A) * list A) :=
  chunkLoop (S (length array)) chunkSize array [].

(** ** Data model *)

(** A document of the collection [carinsurances] (schema
    [carInsuranceSchema]); [doc_id] is the database's [_id]. *)
Record CarInsurance := {
  doc_id : nat;
  carName : string;
  numberPlate : string;
  expiryDate : Z;
  addedBy : string;
  lastUpdated : Z
}.

(** A moment object: its instant and whether [.tz('Asia/Kolkata')] has
    been applied to it (otherwise it is in the host's local mode). *)
Inductive ZoneMode := HostLocal | AsiaKolkata.

Record Moment := { m_time : Z; m_zone : ZoneMode }.

(** What the builders of discord.js are given; they are taken as
    constructors that record their arguments. *)
Record Field := { f_name : string; f_value : string; f_inline : bool }.

Record Embed := {
  title : string;
  color : Z;
  description : option string;
  thumbnail : option string;
  footer : option string;
  fields : list Field
}.

Record Button := { customId : string; label : string; style : string }.

Record Message := {
  content : option string;
  embeds : list Embed;
  ephemeral : bool;
  components : list (list Button)
}.

(** An autocomplete choice. *)
Record Choice := { c_name : string; c_value : string }.

(** What the process does to the outside, in order. *)
Inductive Output :=
| OutReply (m : Message)
| OutFollowUp (m : Message)
| OutRespond (options : list Choice)
| OutUpdate (m : Message)
| OutChannelSend (m : Message)
| OutLog (tag : string) (message : string).

Inductive JsError :=
| MongoDuplicateKey      (* MongoServerError, code 11000 *)
| ValidationError        (* mongoose validation *)
| MongoQueryError        (* the server rejects the query *)
| TypeError.

Inductive InteractionKind := Autocomplete | Command | OtherInteraction.

Record Interaction := {
  inGuild : bool;
  kind : InteractionKind;
  commandName : string;
  getFocused : string;
  getString : string -> string;
  getInteger : string -> Z;
  user_id : string;
  user_tag : string;
  member_roles : list string
}.

(** A click on a message component. *)
Record ComponentInteraction := { ci_user_id : string; ci_customId : string }.

(** ** State and the monad of handlers *)

Record World := {
  ticks : nat;                        (* clock readings made so far *)
  db : list CarInsurance;             (* the collection, in natural order *)
  moments : list Moment;              (* heap of moment objects *)
  arrays : list (list CarInsurance);  (* heap of arrays of documents *)
  out : list Output;                  (* outputs so far, oldest first *)
  replied : bool                      (* [interaction.replied] *)
}.

Definition withTicks (n : nat) (w : World) : World :=
  {| ticks := n; db := db w; moments := moments w; arrays := arrays w;
     out := out w; replied := replied w |}.

Definition withDb (d : list CarInsurance) (w : World) : World :=
  {| ticks := ticks w; db := d; moments := moments w; arrays := arrays w;
     out := out w; replied := replied w |}.

Definition withMoments (h : list Moment) (w : World) : World :=
  {| ticks := ticks w; db := db w; moments := h; arrays := arrays w;
     out := out w; replied := replied w |}.

Definition withArrays (h : list (list CarInsurance)) (w : World) : World :=
  {| ticks := ticks w; db := db w; moments := moments w; arrays := h;
     out := out w; replied := replied w |}.

Definition withOut (o : list Output) (w : World) : World :=
  {| ticks := ticks w; db := db w; moments := moments w; arrays := arrays w;
     out := o; replied := replied w |}.

Definition withReplied (b : bool) (w : World) : World :=
  {| ticks := ticks w; db := db w; moments := moments w; arrays := arrays w;
     out := out w; replied := b |}.

Inductive Outcome (A : Type) :=
| Ok (a : A)
| Throw (e : JsError)
| Diverge.

Arguments Ok {A} a.
Arguments Throw {A} e.
Arguments Diverge {A}.

Definition JS (A : Type) : Type := World -> Outcome A * World.

Definition ret {A} (a : A) : JS A := fun w => (Ok a, w).

Definition bind {A B} (c : JS A) (k : A -> JS B) : JS B :=
  fun w =>
    match c w with
    | (Ok a, w') => k a w'
    | (Throw e, w') => (Throw e, w')
    | (Diverge, w') => (Diverge, w')
    end.

Definition throw {A} (e : JsError) : JS A := fun w => (Throw e, w).

(** [try { body } catch (err) { handler }] *)
Definition tryCatch {A} (body : JS A) (handler : JsError -> JS A) : JS A :=
  fun w =>
    match body w with
    | (Throw e, w') => handler e w'
    | r => r
    end.

Declare Scope js_scope.
Delimit Scope js_scope with js.
Notation "x <- c ;; k" := (bind c (fun x => k))
  (at level 100, c at next level, right associativity) : js_scope.
Notation "c ;; k" := (bind c (fun _ => k))
  (at level 100, right associativity) : js_scope.
Open Scope js_scope.

(** [for (const x of xs) await body(x)] *)
Fixpoint forEachM {A} (body : A -> JS unit) (xs : list A) : JS unit :=
  match xs with
  | [] => ret tt
  | x :: xs' => body x ;; forEachM body xs'
  end.

(** [xs.map(f)] for an [f] that reads the state. *)
Fixpoint mapM {A B} (f : A -> JS B) (xs : list A) : JS (list B) :=
  match xs with
  | [] => ret []
  | x :: xs' => y <- f x ;; ys <- mapM f xs' ;; ret (y :: ys)
  end.

(** [xs.filter(p)] for a [p] that reads the state. *)
Fixpoint filterM {A} (p : A -> JS bool) (xs : list A) : JS (list A) :=
  match xs with
  | [] => ret []
  | x :: xs' =>
      b <- p x ;; ys <- filterM p xs' ;; ret (if b then x :: ys else ys)
  end.

(** [xs.entries()]: the elements with their indices from [i] on. *)
Fixpoint entriesFrom {A} (i : nat) (xs : list A) : list (nat * A) :=
  match xs with
  | [] => []
  | x :: xs' => (i, x) :: entriesFrom (S i) xs'
  end.

Definition emit (o : Output) : JS unit :=
  fun w => (Ok tt, withOut (out w ++ [o]) w).

(** ** The program *)

Section Program.

Variable E : Env.

(** *** Clock, logger, replies *)

Definition readClock : JS Z :=
  fun w => (Ok (clock E (ticks w)), withTicks (S (ticks w)) w).

(** [Logger.log(message, type)]: one clock reading for the time stamp,
    one line on the console. An unknown type prints as [info]. *)
Definition Logger_log (message type : string) : JS unit :=
  readClock ;;
  emit (OutLog (if String.eqb type "success" then "SUCCESS"
                else if String.eqb type "warning" then "WARNING"
                else if String.eqb type "error" then "ERROR"
                else if String.eqb type "debug" then "DEBUG"
                else "INFO") message).

Definition Logger_database (message operation : string) : JS unit :=
  readClock ;;
  emit (OutLog ("DATABASE (" +:+ operation +:+ ")") message).

(** The class [Logger] has the static methods [log], [database] and
    [startup] only: [Logger.error] is [undefined], and calling it raises
    a [TypeError]. *)
Definition Logger_error (message context : string) : JS unit :=
  throw TypeError.

Definition reply (m : Message) : JS unit :=
  fun w => (Ok tt, withReplied true (withOut (out w ++ [OutReply m]) w)).

Definition followUp (m : Message) : JS unit := emit (OutFollowUp m).

Definition respond (options : list Choice) : JS unit :=
  emit (OutRespond options).

Definition channel_send (m : Message) : JS unit := emit (OutChannelSend m).

Definition isReplied : JS bool := fun w => (Ok (replied w), w).

(** *** Heaps *)

Definition newMoment (m : Moment) : JS nat :=
  fun w => (Ok (length (moments w)), withMoments (moments w ++ [m]) w).

Definition getMoment (r : nat) : JS Moment :=
  fun w =>
    match moments w !! r with
    | Some m => (Ok m, w)
    | None => (Throw TypeError, w)
    end.

Definition setMoment (r : nat) (m : Moment) : JS unit :=
  fun w => (Ok tt, withMoments (<[r := m]> (moments w)) w).

Definition newArray (a : list CarInsurance) : JS nat :=
  fun w => (Ok (length (arrays w)), withArrays (arrays w ++ [a]) w).

Definition getArray (r : nat) : JS (list CarInsurance) :=
  fun w =>
    match arrays w !! r with
    | Some a => (Ok a, w)
    | None => (Throw TypeError, w)
    end.

Definition setArray (r : nat) (a : list CarInsurance) : JS unit :=
  fun w => (Ok tt, withArrays (<[r := a]> (arrays w)) w).

(** [[...array]] *)
Definition spread (r : nat) : JS nat := a <- getArray r ;; newArray a.

(** [array.length] *)
Definition array_length (r : nat) : JS nat :=
  a <- getArray r ;; ret (length a).

(** [chunkArray(array, chunkSize)] on an array object: [splice] empties
    the object it is given, chunk by chunk. *)
Definition chunkArray (array : nat) (chunkSize : Z)
    : JS (list (list CarInsurance)) :=
  a <- getArray array ;;
  match chunkArrayOn a chunkSize with
  | Some (results, rest) => setArray array rest ;; ret results
  | None => fun w => (Diverge, w)
  end.

(** *** moment *)

(** [add(n, 'days')] on the instant of a moment. In local mode the day
    of the month is set through [Date.prototype.setDate]; in zone mode
    the wall clock is moved and the offset of the zone is looked up
    again, keeping the wall clock. Nothing is set when [n] is [0]. *)
Definition addDays (mode : ZoneMode) (t n : Z) : Z :=
  if n =? 0 then t
  else
    match mode with
    | HostLocal =>
        let l := t + hostTZA_utc E t + n * MS_PER_DAY in
        l - hostTZA_local E l
    | AsiaKolkata =>
        let t1 := t + n * MS_PER_DAY in
        t1 + (zoneOffset E t - zoneOffset E t1) * 60000
    end.

(** The wall-clock value that [format] prints. *)
Definition wallOf (m : Moment) : Z :=
  match m_zone m with
  | HostLocal => m_time m + hostTZA_utc E (m_time m)
  | AsiaKolkata => wallClock E (m_time m)
  end.

(** [moment()] *)
Definition moment_now : JS nat :=
  t <- readClock ;; newMoment {| m_time := t; m_zone := HostLocal |}.

(** [moment(date)] *)
Definition moment_of (t : Z) : JS nat :=
  newMoment {| m_time := t; m_zone := HostLocal |}.

(** [m.clone()] *)
Definition m_clone (r : nat) : JS nat := m <- getMoment r ;; newMoment m.

(** [m.tz('Asia/Kolkata')]: changes [m] and returns it. *)
Definition m_tz (r : nat) : JS nat :=
  m <- getMoment r ;;
  setMoment r {| m_time := m_time m; m_zone := AsiaKolkata |} ;;
  ret r.

(** [m.add(n, 'days')]: changes [m] and returns it. *)
Definition m_add (r : nat) (n : Z) : JS nat :=
  m <- getMoment r ;;
  setMoment r {| m_time := addDays (m_zone m) (m_time m) n;
                 m_zone := m_zone m |} ;;
  ret r.

(** [m.subtract(n, 'days')]: changes [m] and returns it. *)
Definition m_subtract (r : nat) (n : Z) : JS nat :=
  m <- getMoment r ;;
  setMoment r {| m_time := addDays (m_zone m) (m_time m) (- n);
                 m_zone := m_zone m |} ;;
  ret r.

(** [m.toDate()], [m.valueOf()] *)
Definition m_toDate (r : nat) : JS Z := m <- getMoment r ;; ret (m_time m).

(** [m.format('DD MMM YYYY')] *)
Definition m_format (r : nat) : JS string :=
  m <- getMoment r ;; ret (format_DD_MMM_YYYY E (wallOf m)).

(** [moment(date).tz('Asia/Kolkata').format('DD MMM YYYY')] *)
Definition formatDate (t : Z) : string :=
  format_DD_MMM_YYYY E (wallClock E t).

(** [moment().tz('Asia/Kolkata').format('DD MMM YYYY hh:mm A')] *)
Definition formatNow : JS string :=
  now <- readClock ;; ret (format_DD_MMM_YYYY_hh_mm_A E (wallClock E now)).

(** [moment(date).tz('Asia/Kolkata').fromNow()] *)
Definition fromNow (t : Z) : JS string :=
  now <- readClock ;; ret (fromNowText E t now).

(** [getDaysLeft(expiryDate)]: [moment()] is read first. The two moments
    it builds are its own and are not kept. *)
Definition getDaysLeft (expiryDate : Z) : JS Z :=
  now <- readClock ;; ret (daysLeftAt E now expiryDate).

(** *** Record store *)

Definition hasPlate (plate : string) (c : CarInsurance) : bool :=
  String.eqb (numberPlate c) plate.

(** [CarInsurance.find()] *)
Definition CarInsurance_find : JS (list CarInsurance) :=
  fun w => (Ok (db w), w).

(** [CarInsurance.findOne({ numberPlate })] *)
Definition CarInsurance_findOne (plate : string) : JS (option CarInsurance) :=
  fun w => (Ok (List.find (hasPlate plate) (db w)), w).

Definition freshId (d : list CarInsurance) : nat :=
  S (list_max (map doc_id d)).

(** [new CarInsurance({ carName, numberPlate, expiryDate, addedBy })]:
    [lastUpdated] defaults to [Date.now()]. *)
Definition CarInsurance_new (name plate : string) (expiry : Z)
    (by_ : string) : JS CarInsurance :=
  now <- readClock ;;
  fun w =>
    (Ok {| doc_id := freshId (db w); carName := name; numberPlate := plate;
           expiryDate := expiry; addedBy := by_; lastUpdated := now |}, w).

(** The [required] validators of the schema: a required string is not
    empty. *)
Definition validDoc (c : CarInsurance) : bool :=
  negb (String.eqb (carName c) "") && negb (String.eqb (numberPlate c) "")
  && negb (String.eqb (addedBy c) "").

(** [doc.save()] for a new document: validation, then the insertion,
    which the unique index on [numberPlate] refuses with code 11000 when
    a document has exactly that plate. *)
Definition save_new (c : CarInsurance) : JS unit :=
  fun w =>
    if negb (validDoc c) then (Throw ValidationError, w)
    else if existsb (hasPlate (numberPlate c)) (db w)
    then (Throw MongoDuplicateKey, w)
    else (Ok tt, withDb (db w ++ [c]) w).

(** The update that [doc.save()] sends for a loaded document whose
    [expiryDate] and [lastUpdated] were assigned: it goes to the document
    with this [_id]. *)
Fixpoint updateById (c : CarInsurance) (d : list CarInsurance)
    : list CarInsurance :=
  match d with
  | [] => []
  | x :: d' =>
      if Nat.eqb (doc_id x) (doc_id c)
      then {| doc_id := doc_id x; carName := carName x;
              numberPlate := numberPlate x; expiryDate := expiryDate c;
              addedBy := addedBy x; lastUpdated := lastUpdated c |} :: d'
      else x :: updateById c d'
  end.

Definition save_loaded (c : CarInsurance) : JS unit :=
  fun w => (Ok tt, withDb (updateById c (db w)) w).

(** [car.expiryDate = e; car.lastUpdated = u] *)
Definition assignDates (c : CarInsurance) (e u : Z) : CarInsurance :=
  {| doc_id := doc_id c; carName := carName c; numberPlate := numberPlate c;
     expiryDate := e; addedBy := addedBy c; lastUpdated := u |}.

(** *** Building replies *)

Definition NL : string := String "010"%char "".

Definition field (name value : string) : Field :=
  {| f_name := name; f_value := value; f_inline := true |}.

Definition embedReply (e : Embed) (eph : bool) : Message :=
  {| content := None; embeds := [e]; ephemeral := eph; components := [] |}.

Definition textReply (text : string) : Message :=
  {| content := Some text; embeds := []; ephemeral := true; components := [] |}.

(** [/^[A-Z0-9-]{2,15}$/i.test(numberPlate)] *)
Definition plateChar (c : ascii) : bool :=
  let n := N_of_ascii c in
  ((65 <=? n) && (n <=? 90) || (97 <=? n) && (n <=? 122)
   || (48 <=? n) && (n <=? 57) || (n =? 45))%N.

Definition validPlate (plate : string) : bool :=
  (2 <=? String.length plate)%nat && (String.length plate <=? 15)%nat
  && forallb plateChar (list_ascii_of_string plate).

(** [numberPlate.replace('new_car_', '')] for a plate that starts with
    the tag. *)
Definition stripNewCar (plate : string) : string :=
  String.substring 8 (String.length plate - 8) plate.

(** *** [handleNewCarInsurance] *)

Definition handleNewCarInsurance (i : Interaction) : JS unit :=
  let carName := getString i "car_name" in
  let numberPlate := getString i "number_plate" in
  let daysLeft := getInteger i "days_left" in
  tryCatch
    (if negb (validPlate numberPlate) then
       reply (embedReply
         {| title := "❌ INVALID NUMBER PLATE"; color := 0xFF0000;
            description :=
              Some "Please use 2-15 alphanumeric characters (hyphens allowed)";
            thumbnail := None; footer := None;
            fields := [ field "Your Input" numberPlate;
                        field "Example" "MH01-AB-1234" ] |} true)
     else
       m <- moment_now ;;
       m <- m_tz m ;;
       m <- m_add m daysLeft ;;
       expiryDate <- m_toDate m ;;
       newInsurance <-
         CarInsurance_new carName numberPlate expiryDate (user_tag i) ;;
       save_new newInsurance ;;
       Logger_database
         ("New insurance added: " +:+ carName +:+ " (" +:+ numberPlate
          +:+ ") by " +:+ user_tag i) "INSERT" ;;
       reply (embedReply
         {| title := "✅ NEW INSURANCE REGISTERED"; color := 0x00FF00;
            description := None;
            thumbnail := Some "https://i.imgur.com/JQ6Y5zD.png";
            footer := Some "Insurance successfully added to database";
            fields := [ field "🚗 Car Name" carName;
                        field "🔢 Number Plate" numberPlate;
                        field "📅 Expiry Date" (formatDate expiryDate);
                        field "⏳ Days Valid" (pretty daysLeft);
                        field "👤 Registered By" (user_tag i) ] |} false))
    (fun err =>
       match err with
       | MongoDuplicateKey =>
           reply (embedReply
             {| title := "❌ DUPLICATE ENTRY"; color := 0xFF0000;
                description :=
                  Some ("Number plate **" +:+ numberPlate
                        +:+ "** already exists");
                thumbnail := None; footer := None;
                fields := [ field "Existing Entry" "Check `/list_car_insurance`";
                            field "Need Help?" "Contact server admins" ] |}
             true) ;;
           Logger_database
             ("Duplicate entry attempt: " +:+ numberPlate +:+ " by "
              +:+ user_tag i) "DUPLICATE"
       | _ =>
           Logger_error "New car insurance error" "NEW INSURANCE" ;;
           throw err
       end).

(** *** [handleAddCarInsurance] *)

Definition handleAddCarInsurance (i : Interaction) : JS unit :=
  let numberPlate := getString i "number_plate" in
  let daysToAdd := getInteger i "days_to_add" in
  if String.prefix "new_car_" numberPlate then
    reply (embedReply
      {| title := "🚫 CAR NOT FOUND"; color := 0xFFA500;
         description :=
           Some ("Use `/new_car_insurance` to register:" +:+ NL +:+ "**"
                 +:+ stripNewCar numberPlate +:+ "**");
         thumbnail := None;
         footer := Some "New vehicles must be registered first";
         fields := [] |} true)
  else
    tryCatch
      (found <- CarInsurance_findOne numberPlate ;;
       match found with
       | None =>
           reply (embedReply
             {| title := "❌ RECORD NOT FOUND"; color := 0xFF0000;
                description :=
                  Some ("No insurance found for:" +:+ NL +:+ "**"
                        +:+ numberPlate +:+ "**");
                thumbnail := None;
                footer := Some "Check plate number or register new vehicle";
                fields := [] |} true)
       | Some car =>
           oldExpiry <- moment_of (expiryDate car) ;;
           newExpiry <- m_add oldExpiry daysToAdd ;;
           newTime <- m_toDate newExpiry ;;
           daysLeft <- getDaysLeft newTime ;;
           newDate <- m_toDate newExpiry ;;
           updated <- readClock ;;
           save_loaded (assignDates car newDate updated) ;;
           Logger_database
             ("Insurance extended: " +:+ carName car +:+ " (" +:+ numberPlate
              +:+ ") by " +:+ pretty daysToAdd +:+ " days") "UPDATE" ;;
           oldZoned <- m_tz oldExpiry ;;
           oldText <- m_format oldZoned ;;
           newZoned <- m_tz newExpiry ;;
           newText <- m_format newZoned ;;
           reply (embedReply
             {| title := "🔄 INSURANCE EXTENDED"; color := 0x00FF00;
                description := None;
                thumbnail := Some "https://i.imgur.com/JQ6Y5zD.png";
                footer := Some "Insurance validity extended successfully";
                fields := [ field "🚗 Car Name" (carName car);
                            field "🔢 Number Plate" numberPlate;
                            field "📅 Old Expiry" oldText;
                            field "📅 New Expiry" newText;
                            field "⏳ Days Added" (pretty daysToAdd);
                            field "⏳ Total Days Left" (pretty daysLeft);
                            field "👤 Updated By" (user_tag i) ] |} false)
       end)
      (fun err => Logger_error "Add insurance error" "EXTEND INSURANCE" ;;
                  throw err).

(** *** [handleLessCarInsurance] *)

Definition handleLessCarInsurance (i : Interaction) : JS unit :=
  let numberPlate := getString i "number_plate" in
  let daysToSubtract := getInteger i "days_to_subtract" in
  if String.prefix "new_car_" numberPlate then
    reply (embedReply
      {| title := "🚫 CAR NOT FOUND"; color := 0xFFA500;
         description :=
           Some ("Use `/new_car_insurance` to register:" +:+ NL +:+ "**"
                 +:+ stripNewCar numberPlate +:+ "**");
         thumbnail := None; footer := None; fields := [] |} true)
  else
    tryCatch
      (found <- CarInsurance_findOne numberPlate ;;
       match found with
       | None =>
           reply (embedReply
             {| title := "❌ RECORD NOT FOUND"; color := 0xFF0000;
                description :=
                  Some ("No insurance found for:" +:+ NL +:+ "**"
                        +:+ numberPlate +:+ "**");
                thumbnail := None; footer := None; fields := [] |} true)
       | Some car =>
           oldExpiry <- moment_of (expiryDate car) ;;
           cloned <- m_clone oldExpiry ;;
           newExpiry <- m_subtract cloned daysToSubtract ;;
           newTime <- m_toDate newExpiry ;;
           daysLeft <- getDaysLeft newTime ;;
           if daysLeft <? 0 then
             oldZoned <- m_tz oldExpiry ;;
             oldText <- m_format oldZoned ;;
             newZoned <- m_tz newExpiry ;;
             newText <- m_format newZoned ;;
             reply (embedReply
               {| title := "❌ INVALID ADJUSTMENT"; color := 0xFF0000;
                  description :=
                    Some ("Cannot subtract " +:+ pretty daysToSubtract
                          +:+ " days");
                  thumbnail := None; footer := None;
                  fields := [ field "Current Expiry" oldText;
                              field "Resulting Expiry" newText;
                              field "Days Left" (pretty daysLeft) ] |} true)
           else
             newDate <- m_toDate newExpiry ;;
             updated <- readClock ;;
             save_loaded (assignDates car newDate updated) ;;
             Logger_database
               ("Insurance reduced: " +:+ carName car +:+ " (" +:+ numberPlate
                +:+ ") by " +:+ pretty daysToSubtract +:+ " days") "UPDATE" ;;
             oldZoned <- m_tz oldExpiry ;;
             oldText <- m_format oldZoned ;;
             newZoned <- m_tz newExpiry ;;
             newText <- m_format newZoned ;;
             reply (embedReply
               {| title := "⚠️ INSURANCE REDUCED"; color := 0xFFA500;
                  description := None;
                  thumbnail := Some "https://i.imgur.com/7X8CQyG.png";
                  footer := Some "Insurance validity reduced";
                  fields := [ field "🚗 Car Name" (carName car);
                              field "🔢 Number Plate" numberPlate;
                              field "📅 Old Expiry" oldText;
                              field "📅 New Expiry" newText;
                              field "⏳ Days Reduced" (pretty daysToSubtract);
                              field "⏳ Total Days Left" (pretty daysLeft);
                              field "👤 Updated By" (user_tag i) ] |} false)
       end)
      (fun err => Logger_error "Less insurance error" "REDUCE INSURANCE" ;;
                  throw err).

(** *** Rendering a page *)

(** The field that [embed.addFields] gets for one vehicle. *)
Definition carField (daysLeft : Z) (ago : string) (car : CarInsurance)
    : Field :=
  {| f_name := getStatusEmoji daysLeft +:+ " "
               +:+ toUpperCase E (carName car)
               +:+ " (" +:+ numberPlate car +:+ ")";
     f_value := "📅 **Expiry:** " +:+ formatDate (expiryDate car) +:+ NL
                +:+ "⏳ **Days Left:** " +:+ pretty daysLeft +:+ NL
                +:+ "👤 **Added By:** " +:+ addedBy car +:+ NL
                +:+ "🔄 **Last Updated:** " +:+ ago;
     f_inline := false |}.

(** The callback of [chunk.forEach]: [getDaysLeft] and [fromNow] read
    the clock, in this order. *)
Definition renderCar (car : CarInsurance) : JS Field :=
  daysLeft <- getDaysLeft (expiryDate car) ;;
  ago <- fromNow (lastUpdated car) ;;
  ret (carField daysLeft ago car).

(** *** The scheduled alert *)

Definition alertMentions (banner : string) : string :=
  "<@&" +:+ envText E "FOUNDER_ROLE_ID" +:+ "> "
  +:+ "<@&" +:+ envText E "CO_FOUNDER_ROLE_ID" +:+ "> "
  +:+ "<@&" +:+ envText E "HIGH_COMMAND_ROLE_ID" +:+ "> "
  +:+ "<@&" +:+ envText E "SLAYER_ROLE_ID" +:+ ">" +:+ NL +:+ banner.

(** The body of the loop over [carChunks.entries()]; [alertList] is the
    array object whose length the banner of the first page prints. *)
Definition scheduledPage (alertList : nat) (entry : nat * list CarInsurance)
    : JS unit :=
  let '(index, chunk) := entry in
  descr <- (if Nat.eqb index 0 then
              n <- array_length alertList ;;
              ret ("**" +:+ pretty n +:+ " CAR"
                   +:+ (if (1 <? n)%nat then "S" else "")
                   +:+ " NEED ATTENTION!**")
            else ret "") ;;
  stamp <- formatNow ;;
  flds <- mapM renderCar chunk ;;
  channel_send
    {| content :=
         if Nat.eqb index 0
         then Some (alertMentions "**IMMEDIATE ATTENTION REQUIRED**")
         else None;
       embeds :=
         [ {| title := if Nat.eqb index 0 then "🚨 INSURANCE EXPIRY ALERT"
                       else "🚨 INSURANCE EXPIRY ALERT (PART "
                            +:+ pretty (S index) +:+ ")";
              color := 0xFF0000;
              description := Some descr;
              thumbnail := Some "https://i.imgur.com/7X8CQyG.png";
              footer := Some ("Alert generated at " +:+ stamp);
              fields := flds |} ];
       ephemeral := false;
       components := [] |}.

(** The predicate of [cars.filter]. *)
Definition needsAlert (car : CarInsurance) : JS bool :=
  daysLeft <- getDaysLeft (expiryDate car) ;; ret (daysLeft <=? 3).

(** The job that [schedule.scheduleJob(rule, ...)] runs at 08:30. *)
Definition scheduledJob : JS unit :=
  tryCatch
    (Logger_log "Running scheduled insurance check" "info" ;;
     if negb (channelCached E (process_env E "ALERT_CHANNEL_ID")) then
       Logger_error "Alert channel not found" "SCHEDULED TASK"
     else
       cars <- CarInsurance_find ;;
       selected <- filterM needsAlert cars ;;
       alertList <- newArray selected ;;
       n <- array_length alertList ;;
       if (0 <? n)%nat then
         copy <- spread alertList ;;
         carChunks <- chunkArray copy 10 ;;
         forEachM (scheduledPage alertList) (entriesFrom 0 carChunks) ;;
         n' <- array_length alertList ;;
         Logger_log ("Sent alert for " +:+ pretty n' +:+ " cars in "
                     +:+ pretty (length carChunks) +:+ " parts") "success"
       else
         Logger_log "No expiring insurances found" "info")
    (fun err => Logger_error "Scheduled task error" "SCHEDULED TASK").

(** *** [handleListCarInsurance] and its pagination collector *)

(** [CarInsurance.find().sort({ expiryDate: 1 })]; the order of documents
    with equal dates is the database's choice, here the later document
    of the collection first. *)
Fixpoint insertByExpiry (c : CarInsurance) (l : list CarInsurance)
    : list CarInsurance :=
  match l with
  | [] => [c]
  | x :: l' =>
      if expiryDate c <? expiryDate x then c :: l
      else x :: insertByExpiry c l'
  end.

Definition sortByExpiry (l : list CarInsurance) : list CarInsurance :=
  foldr insertByExpiry [] l.

Definition CarInsurance_find_sorted : JS (list CarInsurance) :=
  fun w => (Ok (sortByExpiry (db w)), w).

Definition listPage (cars : nat) (total : nat)
    (entry : nat * list CarInsurance) : JS Embed :=
  let '(index, chunk) := entry in
  foot <- (if Nat.eqb index 0 then
             n <- array_length cars ;;
             stamp <- formatNow ;;
             ret ("Total Vehicles: " +:+ pretty n +:+ " • " +:+ stamp)
           else
             ret ("Part " +:+ pretty (S index) +:+ " of " +:+ pretty total)) ;;
  flds <- mapM renderCar chunk ;;
  ret {| title := if Nat.eqb index 0 then "📋 INSURANCE REGISTRY"
                  else "📋 INSURANCE REGISTRY (PART " +:+ pretty (S index)
                       +:+ ")";
         color := 0x1E90FF;
         description := None;
         thumbnail := if Nat.eqb index 0
                      then Some "https://i.imgur.com/JQ6Y5zD.png" else None;
         footer := Some foot;
         fields := flds |}.

Definition nextButton : Button :=
  {| customId := "insurance_list_next"; label := "Next Page";
     style := "Primary" |}.

Definition prevButton : Button :=
  {| customId := "insurance_list_prev"; label := "Previous Page";
     style := "Secondary" |}.

(** The collector that a multi-page listing leaves on the channel: its
    owner, the pages and the variable [currentPage] of the closure. *)
Record Collector := {
  col_user : string;
  col_embeds : list Embed;
  currentPage : nat
}.

(** [embeds[k]] in an array literal. *)
Definition pageAt (embeds : list Embed) (k : nat) : list Embed :=
  match embeds !! k with Some e => [e] | None => [] end.

Definition handleListCarInsurance (i : Interaction) : JS (option Collector) :=
  tryCatch
    (sorted <- CarInsurance_find_sorted ;;
     cars <- newArray sorted ;;
     n <- array_length cars ;;
     if Nat.eqb n 0 then
       reply (embedReply
         {| title := "📭 NO INSURANCES FOUND"; color := 0x7289DA;
            description := Some "No car insurances registered yet";
            thumbnail := None;
            footer := Some "Use /new_car_insurance to add vehicles";
            fields := [] |} true) ;;
       ret None
     else
       copy <- spread cars ;;
       carChunks <- chunkArray copy 10 ;;
       pages <- mapM (listPage cars (length carChunks))
                     (entriesFrom 0 carChunks) ;;
       collector <-
         (if Nat.eqb (length pages) 1 then
            reply {| content := None; embeds := pages; ephemeral := true;
                     components := [] |} ;;
            ret None
          else
            reply {| content := None; embeds := pageAt pages 0;
                     ephemeral := true; components := [[nextButton]] |} ;;
            ret (Some {| col_user := user_id i; col_embeds := pages;
                         currentPage := 0 |})) ;;
       n' <- array_length cars ;;
       Logger_log ("Insurance list viewed by " +:+ user_tag i +:+ " ("
                   +:+ pretty n' +:+ " entries)") "info" ;;
       ret collector)
    (fun err => Logger_error "List insurance error" "LIST INSURANCE" ;;
                throw err).

(** [filter] of the collector. *)
Definition listFilter (c : Collector) (click : ComponentInteraction) : bool :=
  String.eqb (ci_user_id click) (col_user c)
  && String.eqb (ci_customId click) "insurance_list_next".

(** The listener of ['collect']. *)
Definition listOnCollect (c : Collector) : JS Collector :=
  let page := S (currentPage c) in
  let page := if (length (col_embeds c) <=? page)%nat then O else page in
  emit (OutUpdate {| content := None; embeds := pageAt (col_embeds c) page;
                     ephemeral := false;
                     components := [[prevButton; nextButton]] |}) ;;
  ret {| col_user := col_user c; col_embeds := col_embeds c;
         currentPage := page |}.

(** A click that reaches the channel while the collector runs: the
    listener is called when the filter accepts the click. *)
Definition collectorClick (c : Collector) (click : ComponentInteraction)
    : JS Collector :=
  if listFilter c click then listOnCollect c else ret c.

Fixpoint collectorClicks (c : Collector) (clicks : list ComponentInteraction)
    : JS Collector :=
  match clicks with
  | [] => ret c
  | click :: rest => c' <- collectorClick c click ;; collectorClicks c' rest
  end.

(** *** [handleRemoveCarInsurance] *)

Fixpoint removeFirst (plate : string) (d : list CarInsurance)
    : list CarInsurance :=
  match d with
  | [] => []
  | x :: d' => if hasPlate plate x then d' else x :: removeFirst plate d'
  end.

(** [CarInsurance.findOneAndDelete({ numberPlate })] *)
Definition CarInsurance_findOneAndDelete (plate : string)
    : JS (option CarInsurance) :=
  fun w => (Ok (List.find (hasPlate plate) (db w)),
            withDb (removeFirst plate (db w)) w).

Definition handleRemoveCarInsurance (i : Interaction) : JS unit :=
  let numberPlate := getString i "number_plate" in
  let password := getString i "password" in
  if String.prefix "new_car_" numberPlate then
    reply (embedReply
      {| title := "🚫 INVALID SELECTION"; color := 0xFFA500;
         description :=
           Some ("Cannot remove unregistered vehicle:" +:+ NL +:+ "**"
                 +:+ stripNewCar numberPlate +:+ "**");
         thumbnail := None; footer := None; fields := [] |} true)
  else
    tryCatch
      (if negb (String.eqb password "slayers1") then
         reply (embedReply
           {| title := "🔒 ACCESS DENIED"; color := 0xFF0000;
              description := Some "Incorrect removal password";
              thumbnail := None;
              footer := Some "Contact leadership for assistance";
              fields := [] |} true) ;;
         Logger_log ("Failed removal attempt by " +:+ user_tag i
                     +:+ " (wrong password)") "warning"
       else
         found <- CarInsurance_findOneAndDelete numberPlate ;;
         match found with
         | None =>
             reply (embedReply
               {| title := "❌ RECORD NOT FOUND"; color := 0xFF0000;
                  description :=
                    Some ("No insurance found for:" +:+ NL +:+ "**"
                          +:+ numberPlate +:+ "**");
                  thumbnail := None; footer := None; fields := [] |} true)
         | Some car =>
             Logger_database
               ("Insurance removed: " +:+ carName car +:+ " (" +:+ numberPlate
                +:+ ") by " +:+ user_tag i) "DELETE" ;;
             daysLeft <- getDaysLeft (expiryDate car) ;;
             reply (embedReply
               {| title := "🗑️ INSURANCE REMOVED"; color := 0xFF0000;
                  description := None;
                  thumbnail := Some "https://i.imgur.com/7X8CQyG.png";
                  footer := Some "Permanently deleted from database";
                  fields := [ field "🚗 Car Name" (carName car);
                              field "🔢 Number Plate" numberPlate;
                              field "📅 Expiry Date"
                                    (formatDate (expiryDate car));
                              field "⏳ Days Left" (pretty daysLeft);
                              field "👤 Removed By" (user_tag i) ] |} false)
         end)
      (fun err => Logger_error "Remove insurance error" "REMOVE INSURANCE" ;;
                  throw err).

End Program.

(** ** The event handler [interactionCreate] *)

Section Dispatch.

Variable E : Env.

(** The three handlers of the pipeline that are not embedded here. *)
Variables handleAlertInsurance handleDMCarInsuranceList
          handleDMAlertCarInsurance : Interaction -> JS unit.

(** [checkRoles(member)]: a role identifier missing from the environment
    is [undefined], which no member holds. *)
Definition checkRoles (roles : list string) : bool :=
  existsb
    (fun roleId =>
       match roleId with
       | Some id => existsb (String.eqb id) roles
       | None => false
       end)
    [ process_env E "ADMIN_ROLE_ID"; process_env E "MANAGER_ROLE_ID";
      process_env E "HIGH_COMMAND_ROLE_ID"; process_env E "FOUNDER_ROLE_ID";
      process_env E "CO_FOUNDER_ROLE_ID" ].

(** [CarInsurance.find({ $or: [{ carName: { $regex, $options: 'i' } },
    { numberPlate: { $regex, $options: 'i' } }] }).limit(25)] *)
Definition CarInsurance_search (focusedValue : string)
    : JS (list CarInsurance) :=
  fun w =>
    if regexValid E focusedValue then
      (Ok (take 25
             (List.filter
                (fun car => regexSearchI E focusedValue (carName car)
                            || regexSearchI E focusedValue (numberPlate car))
                (db w))), w)
    else (Throw MongoQueryError, w).

Definition DQ : string := String "034"%char "".

Definition suggestion (car : CarInsurance) : JS Choice :=
  daysLeft <- getDaysLeft E (expiryDate car) ;;
  ret {| c_name := carName car +:+ " - " +:+ numberPlate car +:+ " ("
                   +:+ pretty daysLeft +:+ "d)";
         c_value := numberPlate car |}.

Definition plateCommands : list string :=
  [ "add_car_insurance"; "less_car_insurance"; "remove_car_insurance" ].

(** The branch [if (interaction.isAutocomplete()) { ...; return; }] *)
Definition autocomplete (i : Interaction) : JS unit :=
  let focusedValue := getFocused i in
  let command := commandName i in
  if existsb (String.eqb command) plateCommands then
    tryCatch
      (cars <- CarInsurance_search focusedValue ;;
       found <- mapM suggestion cars ;;
       let options :=
         if Nat.eqb (length found) 0 && negb (String.eqb focusedValue "")
         then found ++ [ {| c_name := "➕ Add New: " +:+ DQ +:+ focusedValue
                                      +:+ DQ;
                            c_value := "new_car_" +:+ focusedValue |} ]
         else found in
       respond options ;;
       Logger_database E
         ("Autocomplete for " +:+ command +:+ ": " +:+ pretty (length options)
          +:+ " options shown") "QUERY")
      (fun err => Logger_error "Autocomplete error" "AUTOCOMPLETE" ;;
                  respond [])
  else ret tt.

Definition ignoreResult {A} (c : JS A) : JS unit := c ;; ret tt.

(** The [switch (interaction.commandName)] *)
Definition dispatch (i : Interaction) : JS unit :=
  let name := commandName i in
  if String.eqb name "new_car_insurance" then handleNewCarInsurance E i
  else if String.eqb name "add_car_insurance" then handleAddCarInsurance E i
  else if String.eqb name "less_car_insurance" then handleLessCarInsurance E i
  else if String.eqb name "list_car_insurance"
       then ignoreResult (handleListCarInsurance E i)
  else if String.eqb name "alert_insurance" then handleAlertInsurance i
  else if String.eqb name "dm_car_insurance_list"
       then handleDMCarInsuranceList i
  else if String.eqb name "dm_alert_car_insurance"
       then handleDMAlertCarInsurance i
  else if String.eqb name "remove_car_insurance"
       then handleRemoveCarInsurance E i
  else ret tt.

Definition interactionCreate (i : Interaction) : JS unit :=
  tryCatch
    (if negb (inGuild i) then ret tt
     else
       match kind i with
       | Autocomplete => autocomplete i
       | Command =>
           Logger_log E ("Command received: /" +:+ commandName i +:+ " from "
                         +:+ user_tag i) "info" ;;
           if negb (checkRoles (member_roles i)) then
             reply (textReply "⛔ ACCESS DENIED: You lack required permissions") ;;
             Logger_log E ("Permission denied for " +:+ user_tag i +:+ " on /"
                           +:+ commandName i) "warning"
           else dispatch i
       | OtherInteraction => ret tt
       end)
    (fun err =>
       Logger_error "Interaction error" "INTERACTION" ;;
       r <- isReplied ;;
       if r then followUp (textReply "❌ SYSTEM ERROR: Command processing failed")
       else reply (textReply "❌ SYSTEM ERROR: Command processing failed")).

End Dispatch.

(** ** The arrays of the pager as objects *)

(** The pattern of every call site: [chunkArray([...list], 10)]. *)
Definition chunkCopy (list_ : nat) (chunkSize : Z)
    : JS (list (list CarInsurance)) :=
  copy <- spread list_ ;; chunkArray copy chunkSize.

(** ** A sample environment and sample data *)

(** Clock readings one millisecond apart from 1 Nov 2026 00:00:00 UTC,
    Asia/Kolkata at +05:30, a host on UTC, formatters that print the
    wall-clock value, a search that accepts every pattern and finds the
    pattern as a leading part of the subject. *)
Definition sampleEnv : Env :=
  {| clock := fun n => 1793491200000 + Z.of_nat n;
     zoneOffset := fun _ => 330;
     hostTZA_utc := fun _ => 0;
     hostTZA_local := fun _ => 0;
     format_DD_MMM_YYYY := fun t => pretty (t / MS_PER_DAY);
     format_DD_MMM_YYYY_hh_mm_A := fun t => pretty t;
     fromNowText := fun t now => pretty (now - t);
     toUpperCase := fun s => s;
     regexValid := fun _ => true;
     regexSearchI := fun p s => String.prefix p s;
     process_env := fun name =>
       if String.eqb name "ADMIN_ROLE_ID" then Some "900" else None;
     channelCached := fun _ => true |}.

Definition emptyWorld : World :=
  {| ticks := 0; db := []; moments := []; arrays := []; out := [];
     replied := false |}.

Definition sampleCar (n : nat) (plate : string) (expiry : Z) : CarInsurance :=
  {| doc_id := n; carName := "car"; numberPlate := plate;
     expiryDate := expiry; addedBy := "op#1"; lastUpdated := 0 |}.

Definition sampleInteraction (k : InteractionKind) (command plate : string)
    (days : Z) (roles : list string) : Interaction :=
  {| inGuild := true; kind := k; commandName := command;
     getFocused := plate;
     getString := fun name =>
       if String.eqb name "car_name" then "car" else plate;
     getInteger := fun _ => days;
     user_id := "u1"; user_tag := "op#1"; member_roles := roles |}.

(** ** The loops over documents, read off the clock

    What the loops of the alert compute when the first clock reading
    they make is the one numbered [t]. *)

(** [cars.filter(car => getDaysLeft(car.expiryDate) <= 3)] *)
Fixpoint alertSelection (E : Env) (t : nat) (cars : list CarInsurance)
    : list CarInsurance :=
  match cars with
  | [] => []
  | car :: rest =>
      if daysLeftAt E (clock E t) (expiryDate car) <=? 3
      then car :: alertSelection E (S t) rest
      else alertSelection E (S t) rest
  end.

(** The fields that [chunk.forEach] adds. *)
Fixpoint renderCarsFrom (E : Env) (t : nat) (chunk : list CarInsurance)
    : list Field :=
  match chunk with
  | [] => []
  | car :: rest =>
      carField E (daysLeftAt E (clock E t) (expiryDate car))
        (fromNowText E (lastUpdated car) (clock E (S t))) car
      :: renderCarsFrom E (S (S t)) rest
  end.

(** The same interaction from a member with other roles. *)
Definition withRoles (roles : list string) (i : Interaction) : Interaction :=
  {| inGuild := inGuild i; kind := kind i; commandName := commandName i;
     getFocused := getFocused i; getString := getString i;
     getInteger := getInteger i; user_id := user_id i;
     user_tag := user_tag i; member_roles := roles |}.

(** A suggestion shows the name, the plate and the days left of a
    document, and selects its plate. *)
Definition suggests (car : CarInsurance) (o : Choice) : Prop :=
  c_value o = numberPlate car
  /\ exists daysLeft : Z,
       c_name o = carName car +:+ " - " +:+ numberPlate car +:+ " ("
                  +:+ pretty daysLeft +:+ "d)".

(** ** Reading a reply *)

Definition embedTitle (m : Message) : option string :=
  match embeds m with
  | e :: _ => Some (title e)
  | [] => None
  end.

(** The value of the field called [name] in the embed of a reply. *)
Definition fieldValue (name : string) (m : Message) : option string :=
  match embeds m with
  | e :: _ =>
      match List.find (fun f => String.eqb (f_name f) name) (fields e) with
      | Some f => Some (f_value f)
      | None => None
      end
  | [] => None
  end.

(** The messages posted to the alert channel, oldest first. *)
Fixpoint channelPosts (o : list Output) : list Message :=
  match o with
  | [] => []
  | OutChannelSend m :: o' => m :: channelPosts o'
  | _ :: o' => channelPosts o'
  end.

(** The calendar day of an instant in Asia/Kolkata. *)
Definition zoneDay (E : Env) (t : Z) : Z := wallClock E t / MS_PER_DAY.

(** ** The manual alert: [handleAlertInsurance] *)

Section ManualAlert.

Variable E : Env.

(** The body of the loop over [carChunks.entries()] of the manual
    alert; [expiringCars] is the array object whose length the banner of
    the first page prints. *)
Definition manualPage (tag : string) (expiringCars : nat)
    (entry : nat * list CarInsurance) : JS unit :=
  let '(index, chunk) := entry in
  descr <- (if Nat.eqb index 0 then
              n <- array_length expiringCars ;;
              ret ("**" +:+ pretty n +:+ " VEHICLE"
                   +:+ (if (1 <? n)%nat then "S" else "")
                   +:+ " NEED ATTENTION!**")
            else ret "") ;;
  stamp <- formatNow E ;;
  flds <- mapM (renderCar E) chunk ;;
  channel_send
    {| content :=
         if Nat.eqb index 0
         then Some (alertMentions E
                      "**MANUAL ALERT: IMMEDIATE ACTION REQUIRED**")
         else None;
       embeds :=
         [ {| title := if Nat.eqb index 0 then "🚨 MANUAL ALERT TRIGGERED"
                       else "🚨 MANUAL ALERT (PART " +:+ pretty (S index)
                            +:+ ")";
              color := 0xFF0000;
              description := Some descr;
              thumbnail := None;
              footer := Some ("Alert generated by " +:+ tag +:+ " • "
                              +:+ stamp);
              fields := flds |} ];
       ephemeral := false;
       components := [] |}.

Definition handleAlertInsurance (i : Interaction) : JS unit :=
  tryCatch
    (if negb (channelCached E (process_env E "ALERT_CHANNEL_ID")) then
       reply (textReply "❌ Alert channel not configured") ;;
       Logger_error "Alert channel not found in manual alert" "ALERT"
     else
       cars <- CarInsurance_find ;;
       selected <- filterM (needsAlert E) cars ;;
       expiringCars <- newArray selected ;;
       n <- array_length expiringCars ;;
       if Nat.eqb n 0 then
         reply (embedReply
           {| title := "✅ ALL INSURANCES ACTIVE"; color := 0x00FF00;
              description := Some "No expiring insurances found";
              thumbnail := None;
              footer := Some "Next check at 8:30 AM IST";
              fields := [] |} true)
       else
         copy <- spread expiringCars ;;
         carChunks <- chunkArray copy 10 ;;
         forEachM (manualPage (user_tag i) expiringCars)
                  (entriesFrom 0 carChunks) ;;
         n' <- array_length expiringCars ;;
         reply (textReply
                  ("✅ Alert sent to <#" +:+ envText E "ALERT_CHANNEL_ID"
                   +:+ "> (" +:+ pretty n' +:+ " cars in "
                   +:+ pretty (length carChunks) +:+ " parts)")) ;;
         Logger_log E ("Manual alert triggered by " +:+ user_tag i +:+ " for "
                       +:+ pretty n' +:+ " cars") "info")
    (fun err =>
       Logger_error "Alert insurance error" "MANUAL ALERT" ;;
       reply (textReply "❌ Failed to send alert")).

End ManualAlert.

(** ** Predicates on the collection *)

(** What no handler assigns after creation. *)
Definition structure (c : CarInsurance) : nat * string * string * string :=
  (doc_id c, carName c, numberPlate c, addedBy c).

(** The collection as the database and the registration keep it: distinct
    [_id]s, distinct plates, well-formed plates. *)
Definition store_wf (d : list CarInsurance) : Prop :=
  NoDup (map doc_id d) /\ NoDup (map numberPlate d)
  /\ Forall (fun c => validPlate (numberPlate c) = true) d.

(** A computation that leaves the reading [f] of the collection as it
    was, whatever its outcome. *)
Definition keeps {A X} (f : list CarInsurance -> X) (c : JS A) : Prop :=
  forall w, f (db (snd (c w))) = f (db w).

(** The fields of the embeds of a message. *)
Definition postFields (m : Message) : list Field :=
  concat (map fields (embeds m)).

(** A page of an alert: mentions on the first page only, one embed, one
    field per document of the chunk, in order, rendered from a clock
    reading numbered [t0] or later. *)
Definition alertPageOf (E : Env) (mentions : string) (t0 : nat)
    (entry : nat * list CarInsurance) (m : Message) : Prop :=
  content m = (if Nat.eqb (fst entry) 0 then Some mentions else None)
  /\ exists e t,
       (t0 <= t)%nat
       /\ embeds m = [e]
       /\ fields e = renderCarsFrom E t (snd entry)
       /\ (description e = Some "" <-> fst entry <> O).

(** A page of the listing: the title with its part number from the
    second page on, one field per document of the chunk, in order. *)
Definition listPageOf (E : Env) (entry : nat * list CarInsurance)
    (e : Embed) : Prop :=
  title e = (if Nat.eqb (fst entry) 0 then "📋 INSURANCE REGISTRY"
             else "📋 INSURANCE REGISTRY (PART " +:+ pretty (S (fst entry))
                  +:+ ")")
  /\ exists t, fields e = renderCarsFrom E t (snd entry).

(** A field of a vehicle that an alert is due for: at most three days
    left, shown as expired or urgent. *)
Definition dueField (E : Env) (cars : list CarInsurance) (f : Field) : Prop :=
  exists car daysLeft ago,
    In car cars
    /\ daysLeft <= 3
    /\ f = carField E daysLeft ago car
    /\ (getStatusEmoji daysLeft = "❌ EXPIRED"
        \/ getStatusEmoji daysLeft = "🚨 URGENT").

(** The clock never shows an earlier wall-clock time of the zone at a
    later reading. *)
Definition clockMonotone (E : Env) : Prop :=
  forall a b : nat,
    (a <= b)%nat -> wallClock E (clock E a) <= wallClock E (clock E b).

(** Ascending expiry: every document expires no later than those after
    it. *)
Fixpoint sortedByExpiry (l : list CarInsurance) : Prop :=
  match l with
  | [] => True
  | x :: l' =>
      Forall (fun y => expiryDate x <= expiryDate y) l' /\ sortedByExpiry l'
  end.

(** A host zone with one offset at all times, such as UTC. *)
Definition hostFixed (E : Env) : Prop :=
  exists c : Z, forall t : Z, hostTZA_utc E t = c /\ hostTZA_local E t = c.

(** The number of clicks of a list that the filter accepts. *)
Definition accepted (c : Collector) (clicks : list ComponentInteraction)
    : nat :=
  length (List.filter (listFilter c) clicks).

(** * Properties *)

(** ** Expiry classifier *)

Lemma diff_days_wall E this that :
  diff_days E this that
  = (inject_Z (wallClock E this - wallClock E that) / inject_Z MS_PER_DAY)%Q.
Proof.
  unfold diff_days, wallClock. cbv zeta. f_equal. f_equal. lia.
Qed.

(** The ceiling of [n / 864e5], read on integers. *)
Lemma ceil_days_bounds (n : Z) :
  let d := Math_ceil (inject_Z n / inject_Z MS_PER_DAY)%Q in
  (d - 1) * MS_PER_DAY < n <= d * MS_PER_DAY.
Proof.
  cbv zeta. unfold Math_ceil.
  set (q := (inject_Z n / inject_Z MS_PER_DAY)%Q).
  assert (Hpos : (0 < inject_Z MS_PER_DAY)%Q) by reflexivity.
  assert (Hq : (q * inject_Z MS_PER_DAY == inject_Z n)%Q).
  { unfold q. field. intro H. discriminate H. }
  pose proof (Qle_ceiling q) as Hle.
  pose proof (Qceiling_lt q) as Hlt.
  split.
  - apply (Qmult_lt_compat_r _ _ (inject_Z MS_PER_DAY)) in Hlt; [|exact Hpos].
    rewrite Hq, <- inject_Z_mult, <- Zlt_Qlt in Hlt. exact Hlt.
  - apply (Qmult_le_compat_r _ _ (inject_Z MS_PER_DAY)) in Hle;
      [|apply Qlt_le_weak; exact Hpos].
    rewrite Hq, <- inject_Z_mult, <- Zle_Qle in Hle. exact Hle.
Qed.

(** C1. [getDaysLeft] returns the ceiling of the difference, in days, of
    the wall clocks of the expiry and of the clock reading in
    Asia/Kolkata, and [getStatusEmoji] maps a number of days to EXPIRED
    up to 0, URGENT from 1 to 3, WARNING from 4 to 7 and ACTIVE above 7. *)
Theorem classifier_ceiling_and_tiers (E : Env) (w : World) (expiry : Z) :
  let now := clock E (ticks w) in
  let d := daysLeftAt E now expiry in
  getDaysLeft E expiry w = (Ok d, withTicks (S (ticks w)) w)
  /\ d = Qceiling (inject_Z (wallClock E expiry - wallClock E now)
                   / inject_Z MS_PER_DAY)%Q
  /\ (d - 1) * MS_PER_DAY < wallClock E expiry - wallClock E now
     <= d * MS_PER_DAY
  /\ forall k : Z,
       (k <= 0 -> getStatusEmoji k = "❌ EXPIRED")
       /\ (1 <= k <= 3 -> getStatusEmoji k = "🚨 URGENT")
       /\ (4 <= k <= 7 -> getStatusEmoji k = "⚠️ WARNING")
       /\ (7 < k -> getStatusEmoji k = "✅ ACTIVE").
Proof.
  cbv zeta. split; [reflexivity|].
  unfold daysLeftAt. rewrite diff_days_wall.
  split; [reflexivity|].
  split; [apply ceil_days_bounds|].
  intros k. unfold getStatusEmoji.
  repeat split; intros Hk;
    repeat (match goal with
            | |- context [?a <=? ?b] => destruct (Z.leb_spec a b)
            end; try lia; try reflexivity).
Qed.

(** ** Pager *)

Lemma Qceiling_unique (q : Q) (k : Z) :
  (inject_Z (k - 1) < q)%Q -> (q <= inject_Z k)%Q -> Qceiling q = k.
Proof.
  intros Hlo Hhi.
  pose proof (Qle_ceiling q) as Hle.
  pose proof (Qceiling_lt q) as Hlt.
  assert (H1 : k - 1 < Qceiling q).
  { rewrite Zlt_Qlt. eapply Qlt_le_trans; eassumption. }
  assert (H2 : Qceiling q - 1 < k).
  { rewrite Zlt_Qlt. eapply Qlt_le_trans; eassumption. }
  lia.
Qed.

Section Chunks.

Context {A : Type}.

(** With a chunk size of at least one the loop stops within one iteration
    per element, empties the array and returns a partition of it into
    runs of [n] elements, the last one holding the remainder. *)
Lemma chunkLoop_spec (n : nat) (Hn : (1 <= n)%nat) :
  forall (fuel : nat) (a : list A) (results : list (list A)),
    (length a < fuel)%nat ->
    exists pages,
      chunkLoop fuel (Z.of_nat n) a results = Some (results ++ pages, [])
      /\ concat pages = a
      /\ (forall i p, pages !! i = Some p ->
            (S i < length pages)%nat -> length p = n)
      /\ (forall p, last pages = Some p ->
            (1 <= length p <= n)%nat
            /\ (length p + n * (length pages - 1) = length a)%nat)
      /\ (n * length pages < length a + n)%nat
      /\ (length a <= n * length pages)%nat.
Proof.
  induction fuel as [|fuel IH]; intros a results Hfuel; [lia|].
  destruct a as [|x a'].
  - exists []. simpl. rewrite app_nil_r.
    repeat split; try done; simpl; lia.
  - remember (x :: a') as a eqn:Ha.
    assert (Hlen : (1 <= length a)%nat) by (subst a; simpl; lia).
    assert (Hstep : chunkLoop (S fuel) (Z.of_nat n) a results
                    = chunkLoop fuel (Z.of_nat n) (drop n a)
                        (results ++ [take n a])).
    { subst a. simpl. rewrite Nat2Z.id. reflexivity. }
    destruct (IH (drop n a) (results ++ [take n a])) as
      (pages & Hrun & Hcat & Hfull & Hlast & Hlo & Hhi).
    { rewrite length_drop. lia. }
    rewrite length_drop in Hlo, Hhi.
    exists (take n a :: pages).
    rewrite Hstep, Hrun, <- app_assoc. simpl.
    split; [reflexivity|].
    split; [rewrite Hcat; apply take_drop|].
    split; [|split].
    + intros [|i] p Hp Hi.
      * injection Hp as <-. rewrite length_take.
        cbn [length] in Hi.
        destruct pages as [|p' pages']; cbn [length] in *; [lia|].
        rewrite Nat.mul_succ_r in Hlo. lia.
      * apply (Hfull i p Hp). cbn [length] in Hi. lia.
    + intros p Hp. destruct pages as [|p' pages'].
      * injection Hp as <-. rewrite length_take.
        cbn [length] in *. lia.
      * change (last (p' :: pages') = Some p) in Hp.
        destruct (Hlast p Hp) as [Hb Hsum].
        rewrite length_drop in Hsum. cbn [length] in *.
        rewrite ?Nat.sub_succ, ?Nat.sub_0_r, ?Nat.mul_succ_r in *.
        lia.
    + destruct pages as [|p' pages']; cbn [length] in *;
        rewrite ?Nat.mul_succ_r, ?Nat.mul_0_r in *; lia.
Qed.

(** With a chunk size of zero or less nothing is ever removed from a
    non-empty array: the loop does not stop. *)
Lemma chunkLoop_stuck (n : Z) (Hn : n <= 0) (x : A) (a : list A) :
  forall fuel results, chunkLoop fuel n (x :: a) results = None.
Proof.
  induction fuel as [|fuel IH]; intros results; [reflexivity|].
  simpl. replace (Z.to_nat n) with O by lia. simpl. apply IH.
Qed.

Lemma chunkArrayOn_spec (n : nat) (Hn : (1 <= n)%nat) (a : list A) :
  exists pages,
    chunkArrayOn a (Z.of_nat n) = Some (pages, [])
    /\ concat pages = a
    /\ (forall i p, pages !! i = Some p ->
          (S i < length pages)%nat -> length p = n)
    /\ (forall p, last pages = Some p ->
          (1 <= length p <= n)%nat
          /\ (length p + n * (length pages - 1) = length a)%nat)
    /\ (n * length pages < length a + n)%nat
    /\ (length a <= n * length pages)%nat.
Proof.
  unfold chunkArrayOn.
  destruct (chunkLoop_spec n Hn (S (length a)) a []) as (pages & H); [lia|].
  exists pages. exact H.
Qed.

(** The loop stops exactly when the chunk size is positive or there is
    nothing to split. *)
Lemma chunkArrayOn_stops_iff (n : Z) (a : list A) :
  chunkArrayOn a n = None <-> n <= 0 /\ a <> [].
Proof.
  split.
  - intros Hnone. destruct (Z.le_gt_cases n 0) as [Hle|Hgt].
    + split; [exact Hle|]. intros ->. discriminate Hnone.
    + destruct (chunkArrayOn_spec (Z.to_nat n) ltac:(lia) a) as (pages & H & _).
      rewrite Z2Nat.id in H by lia. congruence.
  - intros [Hle Hne]. destruct a as [|x a]; [done|].
    apply chunkLoop_stuck, Hle.
Qed.

End Chunks.

(** C2. For a page size of 10, [chunkArray] stops and returns pages whose
    concatenation is the input; every page but the last has 10 records
    and the last has the remainder; there are [ceil(count / 10)] pages;
    the empty input has no page. *)
Theorem chunkArray_is_partition (A : Type) (a : list A) :
  (exists pages,
     chunkArrayOn a 10 = Some (pages, [])
     /\ concat pages = a
     /\ (forall i p, pages !! i = Some p ->
           (S i < length pages)%nat -> length p = 10%nat)
     /\ (forall p, last pages = Some p ->
           (1 <= length p <= 10)%nat
           /\ (length p + 10 * (length pages - 1) = length a)%nat)
     /\ Z.of_nat (length pages)
        = Math_ceil (inject_Z (Z.of_nat (length a)) / inject_Z 10)%Q)
  /\ chunkArrayOn (@nil A) 10 = Some ([], []).
Proof.
  split; [|reflexivity].
  destruct (chunkArrayOn_spec 10 ltac:(lia) a) as
    (pages & Hrun & Hcat & Hfull & Hlast & Hlo & Hhi).
  exists pages. repeat split; try assumption.
  - apply Hlast. assumption.
  - apply Hlast. assumption.
  - apply Hlast. assumption.
  - symmetry. apply Qceiling_unique.
    + apply Qlt_shift_div_l; [reflexivity|].
      rewrite <- inject_Z_mult, <- Zlt_Qlt. lia.
    + apply Qle_shift_div_r; [reflexivity|].
      rewrite <- inject_Z_mult, <- Zle_Qle. lia.
Qed.

(** ** Heaps *)

Section Heap.

Context {A : Type}.

Lemma heap_new_lookup (h : list A) (x : A) : (h ++ [x]) !! length h = Some x.
Proof. by apply list_lookup_middle. Qed.

Lemma heap_new_insert (h : list A) (x y : A) :
  <[length h := y]> (h ++ [x]) = h ++ [y].
Proof.
  rewrite <- (Nat.add_0_r (length h)) at 1. by rewrite insert_app_r.
Qed.

Lemma heap_old_lookup (h : list A) (x : A) (r : nat) (v : A) :
  h !! r = Some v -> (h ++ [x]) !! r = Some v.
Proof. intros H. by apply lookup_app_l_Some. Qed.

Lemma heap_new2_lookup_fst (h : list A) (x y : A) :
  ((h ++ [x]) ++ [y]) !! length h = Some x.
Proof. apply heap_old_lookup, heap_new_lookup. Qed.

Lemma heap_new2_lookup_snd (h : list A) (x y : A) :
  ((h ++ [x]) ++ [y]) !! S (length h) = Some y.
Proof.
  replace (S (length h)) with (length (h ++ [x])); [apply heap_new_lookup|].
  rewrite length_app. simpl. lia.
Qed.

Lemma heap_new2_insert_fst (h : list A) (x y x' : A) :
  <[length h := x']> ((h ++ [x]) ++ [y]) = (h ++ [x']) ++ [y].
Proof.
  rewrite insert_app_l; [by rewrite heap_new_insert|].
  rewrite length_app. simpl. lia.
Qed.

Lemma heap_new2_insert_snd (h : list A) (x y y' : A) :
  <[S (length h) := y']> ((h ++ [x]) ++ [y]) = (h ++ [x]) ++ [y'].
Proof.
  replace (S (length h)) with (length (h ++ [x])); [apply heap_new_insert|].
  rewrite length_app. simpl. lia.
Qed.

Lemma heap_new_length (h : list A) (x : A) : length (h ++ [x]) = S (length h).
Proof. rewrite length_app. simpl. lia. Qed.

End Heap.

Create Rewrite HintDb heap.

#[local] Hint Rewrite @heap_new_length @heap_new_lookup @heap_new_insert
  @heap_new2_lookup_fst @heap_new2_lookup_snd @heap_new2_insert_fst
  @heap_new2_insert_snd : heap.

(** Evaluation of the monad and of the state, leaving the library
    functions and the arithmetic of dates alone. *)
Ltac js_eval :=
  cbv beta iota zeta delta
    [bind ret throw tryCatch emit reply followUp respond channel_send
     isReplied readClock Logger_log Logger_database Logger_error
     newMoment getMoment setMoment newArray getArray setArray spread
     array_length moment_now moment_of m_clone m_tz m_add m_subtract
     m_toDate m_format wallOf formatNow fromNow getDaysLeft
     CarInsurance_find CarInsurance_findOne CarInsurance_new save_new
     save_loaded
     withTicks withDb withMoments withArrays withOut withReplied];
  cbn [ticks db moments arrays out replied m_time m_zone fst snd negb andb
       orb Nat.eqb].

Ltac js_run := repeat (js_eval; autorewrite with heap).

(** ** The array that [chunkArray] is given *)

(** C7, as stated, fails: the array object handed to [chunkArray] is
    empty after the call. *)
Lemma chunkArray_empties_its_argument :
  let w := withArrays [[sampleCar 1 "AB-12" 0]] emptyWorld in
  arrays w !! 0%nat = Some [sampleCar 1 "AB-12" 0]
  /\ fst (chunkArray 0 10 w) = Ok [[sampleCar 1 "AB-12" 0]]
  /\ arrays (snd (chunkArray 0 10 w)) !! 0%nat = Some [].
Proof. repeat split. Qed.

(** C7, amended. [chunkArray] returns pages that depend on the contents
    of its argument and on the page size only, and leaves the argument
    empty; called as [chunkArray([...list], n)], as at every call site,
    it returns the same pages and leaves [list] as it was. *)
Theorem chunkArray_consumes_copy_protects (w : World) (r : nat)
    (a : list CarInsurance) (n : Z) :
  1 <= n ->
  arrays w !! r = Some a ->
  exists pages,
    chunkArrayOn a n = Some (pages, [])
    /\ chunkArray r n w = (Ok pages, withArrays (<[r := []]> (arrays w)) w)
    /\ chunkCopy r n w = (Ok pages, withArrays (arrays w ++ [[]]) w)
    /\ (arrays w ++ [[]]) !! r = Some a
    /\ forall (w2 : World) (r2 : nat),
         arrays w2 !! r2 = Some a -> fst (chunkCopy r2 n w2) = Ok pages.
Proof.
  intros Hn Hr.
  destruct (chunkArrayOn_spec (Z.to_nat n) ltac:(lia) a) as (pages & Hrun & _).
  rewrite Z2Nat.id in Hrun by lia.
  assert (Hcopy : forall w2 r2, arrays w2 !! r2 = Some a ->
            chunkCopy r2 n w2 = (Ok pages, withArrays (arrays w2 ++ [[]]) w2)).
  { intros w2 r2 H2. unfold chunkCopy, chunkArray. js_eval. rewrite H2.
    js_run. rewrite Hrun. js_run. reflexivity. }
  exists pages. split; [exact Hrun|]. split; [|split; [|split]].
  - unfold chunkArray. js_eval. rewrite Hr. js_eval. rewrite Hrun.
    js_eval. reflexivity.
  - apply Hcopy, Hr.
  - apply heap_old_lookup, Hr.
  - intros w2 r2 H2. rewrite (Hcopy w2 r2 H2). reflexivity.
Qed.

Lemma chunkArray_consumes_copy_protects_witness :
  exists pages,
    chunkArrayOn [sampleCar 1 "AB-12" 0] 10 = Some (pages, [])
    /\ chunkCopy 0 10 (withArrays [[sampleCar 1 "AB-12" 0]] emptyWorld)
       = (Ok pages,
          withArrays [[sampleCar 1 "AB-12" 0]; []] emptyWorld).
Proof.
  destruct (chunkArray_consumes_copy_protects
              (withArrays [[sampleCar 1 "AB-12" 0]] emptyWorld) 0
              [sampleCar 1 "AB-12" 0] 10 ltac:(lia) eq_refl)
    as (pages & H1 & _ & H3 & _).
  exists pages. split; [exact H1 | exact H3].
Defined.

(** ** Record store *)

Lemma find_updateById (c c' : CarInsurance) (plate : string)
    (d : list CarInsurance) :
  List.find (hasPlate plate) d = Some c ->
  NoDup (map doc_id d) ->
  doc_id c' = doc_id c ->
  List.find (hasPlate plate) (updateById c' d)
  = Some (assignDates c (expiryDate c') (lastUpdated c')).
Proof.
  intros Hfind Hnd Hid. induction d as [|x d IH]; [discriminate|].
  simpl in Hfind, Hnd. apply NoDup_cons in Hnd as [Hx Hnd].
  simpl. destruct (hasPlate plate x) eqn:Hp.
  - injection Hfind as ->. rewrite Hid, Nat.eqb_refl. simpl.
    unfold hasPlate in *. simpl. rewrite Hp. reflexivity.
  - destruct (Nat.eqb_spec (doc_id x) (doc_id c')) as [Heq|Hne].
    + exfalso. apply Hx. rewrite Heq, Hid.
      apply list_elem_of_In, in_map, (find_some _ _ Hfind).
    + simpl. rewrite Hp. apply IH; assumption.
Qed.






(** ** Registration *)

Lemma find_snoc_fresh (p : CarInsurance -> bool) (d : list CarInsurance)
    (c : CarInsurance) :
  existsb p d = false -> p c = true -> List.find p (d ++ [c]) = Some c.
Proof.
  intros Hd Hc. induction d as [|x d IH]; simpl in *.
  - by rewrite Hc.
  - apply orb_false_iff in Hd as [Hx Hd]. rewrite Hx. by apply IH.
Qed.

Lemma validPlate_nonempty (plate : string) :
  validPlate plate = true -> String.eqb plate "" = false.
Proof. destruct plate; [discriminate | reflexivity]. Qed.

Lemma eqb_empty_false (s : string) : s <> "" -> String.eqb s "" = false.
Proof. intros H. by apply String.eqb_neq. Qed.






(** ** The scheduled alert *)

Lemma filterM_needsAlert (E : Env) (cars : list CarInsurance) :
  forall w,
    filterM (needsAlert E) cars w
    = (Ok (alertSelection E (ticks w) cars),
       withTicks (ticks w + length cars) w).
Proof.
  induction cars as [|car rest IH]; intros w.
  - simpl. unfold ret, withTicks. rewrite Nat.add_0_r. by destruct w.
  - cbn [filterM alertSelection length]. unfold needsAlert at 1.
    js_eval. rewrite IH. js_eval.
    replace (S (ticks w) + length rest)%nat
      with (ticks w + S (length rest))%nat by lia.
    by destruct (daysLeftAt E (clock E (ticks w)) (expiryDate car) <=? 3).
Qed.

Lemma mapM_renderCar (E : Env) (chunk : list CarInsurance) :
  forall w,
    mapM (renderCar E) chunk w
    = (Ok (renderCarsFrom E (ticks w) chunk),
       withTicks (ticks w + 2 * length chunk) w).
Proof.
  induction chunk as [|car rest IH]; intros w.
  - simpl. unfold ret, withTicks. rewrite Nat.add_0_r. by destruct w.
  - cbn [mapM renderCarsFrom length]. unfold renderCar at 1.
    js_eval. rewrite IH. js_eval.
    replace (S (S (ticks w)) + 2 * length rest)%nat
      with (ticks w + 2 * S (length rest))%nat by lia.
    reflexivity.
Qed.

Lemma renderCarsFrom_length (E : Env) (chunk : list CarInsurance) :
  forall t, length (renderCarsFrom E t chunk) = length chunk.
Proof.
  induction chunk as [|car rest IH]; intros t; simpl; [|rewrite IH]; done.
Qed.

Lemma channelPosts_app (o1 o2 : list Output) :
  channelPosts (o1 ++ o2) = channelPosts o1 ++ channelPosts o2.
Proof.
  induction o1 as [|[] o1 IH]; simpl; rewrite ?IH; reflexivity.
Qed.

Lemma chunk_25_by_10 {A} (l : list A) :
  length l = 25%nat ->
  chunkArrayOn l 10 = Some ([take 10 l; take 10 (drop 10 l); drop 20 l], []).
Proof.
  intros H.
  do 25 (destruct l as [|? l]; [discriminate H|]).
  destruct l; [reflexivity | discriminate H].
Qed.




(** ** The pagination collector of the list view *)

(** A click on Next Page by the owner moves the cursor one page on,
    from the last page to the first, and shows that page. *)
Lemma next_click_advances (c : Collector) (w : World) :
  (currentPage c < length (col_embeds c))%nat ->
  let click := {| ci_user_id := col_user c;
                  ci_customId := "insurance_list_next" |} in
  let page := ((currentPage c + 1) mod length (col_embeds c))%nat in
  collectorClick c click w
  = (Ok {| col_user := col_user c; col_embeds := col_embeds c;
           currentPage := page |},
     withOut (out w ++ [OutUpdate
                          {| content := None;
                             embeds := pageAt (col_embeds c) page;
                             ephemeral := false;
                             components := [[prevButton; nextButton]] |}])
       w).
Proof.
  intros Hlt click page.
  unfold collectorClick, listFilter, click. cbn [ci_user_id ci_customId].
  rewrite String.eqb_refl. cbn [andb String.eqb].
  change (("insurance_list_next" =? "insurance_list_next")%string) with true.
  cbv iota. unfold listOnCollect. cbv zeta.
  assert (Hpage : (if (length (col_embeds c) <=? S (currentPage c))%nat
                   then O else S (currentPage c)) = page).
  { unfold page. rewrite Nat.add_1_r.
    destruct (Nat.leb_spec (length (col_embeds c)) (S (currentPage c))).
    - replace (S (currentPage c)) with (length (col_embeds c)) by lia.
      rewrite Nat.Div0.mod_same. reflexivity.
    - rewrite Nat.mod_small by lia. reflexivity. }
  rewrite Hpage. reflexivity.
Qed.

(** C8, on the code. A click on Previous Page by the owner of the list
    view does not pass the filter of the collector: the cursor stays
    where it is and nothing is shown. *)
Theorem previous_click_is_ignored (c : Collector) (w : World) :
  let click := {| ci_user_id := col_user c;
                  ci_customId := "insurance_list_prev" |} in
  listFilter c click = false
  /\ collectorClick c click w = (Ok c, w).
Proof.
  cbv zeta. unfold collectorClick, listFilter. cbn [ci_user_id ci_customId].
  change (("insurance_list_prev" =? "insurance_list_next")%string) with false.
  rewrite andb_false_r. split; reflexivity.
Qed.

(** A listing of eleven vehicles: the first reply has the Next Page
    button; after a click on it the second page is shown with both
    buttons; a click on Previous Page then changes nothing. *)
Example list_view_previous_button :
  let cars := map (fun n => sampleCar n "AB-12" (Z.of_nat n)) (seq 0 11) in
  let i := sampleInteraction Command "list_car_insurance" "" 0 ["900"] in
  let prev := {| ci_user_id := "u1"; ci_customId := "insurance_list_prev" |} in
  let next := {| ci_user_id := "u1"; ci_customId := "insurance_list_next" |} in
  exists c0 w0 c1 w1,
    handleListCarInsurance sampleEnv i (withDb cars emptyWorld)
    = (Ok (Some c0), w0)
    /\ length (col_embeds c0) = 2%nat
    /\ collectorClick c0 next w0 = (Ok c1, w1)
    /\ currentPage c1 = 1%nat
    /\ (exists m, last (out w1) = Some (OutUpdate m)
                  /\ components m = [[prevButton; nextButton]])
    /\ collectorClick c1 prev w1 = (Ok c1, w1).
Proof.
  do 4 eexists.
  split; [vm_compute; reflexivity|].
  split; [reflexivity|].
  split; [vm_compute; reflexivity|].
  split; [reflexivity|].
  split; [eexists; split; reflexivity|].
  reflexivity.
Qed.

(** ** The role gate and the autocomplete branch *)

Lemma mapM_suggestion (E : Env) (cars : list CarInsurance) :
  forall w,
    exists found,
      mapM (suggestion E) cars w
      = (Ok found, withTicks (ticks w + length cars) w)
      /\ Forall2 suggests cars found.
Proof.
  induction cars as [|car rest IH]; intros w.
  - exists []. simpl. unfold ret, withTicks. rewrite Nat.add_0_r.
    split; [by destruct w | constructor].
  - destruct (IH (withTicks (S (ticks w)) w)) as (found & Hrun & Hval).
    eexists. cbn [mapM length]. unfold suggestion at 1.
    js_eval. unfold withTicks in Hrun.
    cbn [ticks db moments arrays out replied] in Hrun.
    rewrite Hrun. js_eval.
    replace (S (ticks w) + length rest)%nat
      with (ticks w + S (length rest))%nat by lia.
    split; [reflexivity|]. constructor; [|exact Hval].
    split; [reflexivity|]. eexists. reflexivity.
Qed.

(** X1. A command from a member who holds none of the five roles is
    answered with the denial and nothing else. *)
Lemma command_without_role_is_denied (E : Env)
    (hA hD hDA : Interaction -> JS unit) (i : Interaction) (w : World) :
  inGuild i = true ->
  kind i = Command ->
  checkRoles E (member_roles i) = false ->
  exists w',
    interactionCreate E hA hD hDA i w = (Ok tt, w')
    /\ db w' = db w
    /\ exists line1 line2,
         out w' = out w ++ [ line1;
                             OutReply (textReply
                               "⛔ ACCESS DENIED: You lack required permissions");
                             line2 ].
Proof.
  intros Hguild Hkind Hroles.
  unfold interactionCreate. rewrite Hguild, Hkind. js_eval.
  rewrite Hroles. js_run.
  eexists. split; [reflexivity|]. split; [reflexivity|].
  do 2 eexists. rewrite <- !app_assoc. reflexivity.
Qed.



(** ** The scenarios of the specification, on the sample environment *)

(** An expiry one millisecond ahead counts as one day left; an expiry at
    the clock reading itself as none. *)
Example days_left_boundaries :
  daysLeftAt sampleEnv 1793491200000 1793491200001 = 1
  /\ daysLeftAt sampleEnv 1793491200000 1793491200000 = 0
  /\ daysLeftAt sampleEnv 1793491200000 (1793491200000 - 1) = 0
  /\ daysLeftAt sampleEnv 1793491200000 (1793491200000 - MS_PER_DAY) = -1
  /\ daysLeftAt sampleEnv 1793491200000 (1793491200000 + 7 * MS_PER_DAY + 1)
     = 8.
Proof. repeat split. Qed.

(** With an expiry five days ahead, taking three days off is accepted
    and leaves two days. *)
Example reduce_five_by_three :
  let i := sampleInteraction Command "less_car_insurance" "AB-12" 3 ["900"] in
  let w := withDb [sampleCar 1 "AB-12" (1793491200000 + 5 * MS_PER_DAY)]
             emptyWorld in
  let w' := snd (handleLessCarInsurance sampleEnv i w) in
  map expiryDate (db w') = [1793491200000 + 2 * MS_PER_DAY]
  /\ exists m, last (out w') = Some (OutReply m)
               /\ fieldValue "⏳ Total Days Left" m = Some "2".
Proof. split; [reflexivity|]. eexists. split; reflexivity. Qed.

(** Taking ten days off is refused and the document keeps its expiry. *)
Example reduce_five_by_ten :
  let i := sampleInteraction Command "less_car_insurance" "AB-12" 10 ["900"] in
  let w := withDb [sampleCar 1 "AB-12" (1793491200000 + 5 * MS_PER_DAY)]
             emptyWorld in
  let w' := snd (handleLessCarInsurance sampleEnv i w) in
  db w' = db w
  /\ exists m, last (out w') = Some (OutReply m)
               /\ embedTitle m = Some "❌ INVALID ADJUSTMENT"
               /\ fieldValue "Days Left" m = Some "-5".
Proof. split; [reflexivity|]. eexists. split; [reflexivity|]. split; reflexivity. Qed.

(** Taking all five days off is accepted, although no day is left and
    the listing shows the vehicle as expired. *)
Example reduce_five_by_five :
  let i := sampleInteraction Command "less_car_insurance" "AB-12" 5 ["900"] in
  let w := withDb [sampleCar 1 "AB-12" (1793491200000 + 5 * MS_PER_DAY)]
             emptyWorld in
  let w' := snd (handleLessCarInsurance sampleEnv i w) in
  map expiryDate (db w') = [1793491200000]
  /\ getStatusEmoji 0 = "❌ EXPIRED"
  /\ exists m, last (out w') = Some (OutReply m)
               /\ embedTitle m = Some "⚠️ INSURANCE REDUCED"
               /\ fieldValue "⏳ Total Days Left" m = Some "0".
Proof.
  split; [reflexivity|]. split; [reflexivity|].
  eexists. split; [reflexivity|]. split; reflexivity.
Qed.

(** Two pages for eleven records, one for ten, none for none. *)
Example chunk_sizes :
  chunkArrayOn (seq 0 11) 10 = Some ([seq 0 10; [10%nat]], [])
  /\ chunkArrayOn (seq 0 10) 10 = Some ([seq 0 10], [])
  /\ chunkArrayOn (@nil nat) 10 = Some ([], []).
Proof. repeat split. Qed.

(** * Further properties *)

(** ** What a computation leaves of the collection *)

Section Keeps.

Context {X : Type} (f : list CarInsurance -> X).

Lemma keeps_ret {A} (a : A) : keeps f (ret a).
Proof. intros w. reflexivity. Qed.

Lemma keeps_throw {A} (e : JsError) : keeps f (@throw A e).
Proof. intros w. reflexivity. Qed.

Lemma keeps_bind {A B} (c : JS A) (k : A -> JS B) :
  keeps f c -> (forall a, keeps f (k a)) -> keeps f (bind c k).
Proof.
  intros Hc Hk w. unfold bind. specialize (Hc w).
  destruct (c w) as [[a|e|] w1]; simpl in *; [|exact Hc|exact Hc].
  rewrite (Hk a w1). exact Hc.
Qed.

Lemma keeps_tryCatch {A} (body : JS A) (handler : JsError -> JS A) :
  keeps f body -> (forall e, keeps f (handler e)) ->
  keeps f (tryCatch body handler).
Proof.
  intros Hb Hh w. unfold tryCatch. specialize (Hb w).
  destruct (body w) as [[a|e|] w1]; simpl in *; [exact Hb| |exact Hb].
  rewrite (Hh e w1). exact Hb.
Qed.

Lemma keeps_mapM {A B} (g : A -> JS B) (xs : list A) :
  (forall x, keeps f (g x)) -> keeps f (mapM g xs).
Proof.
  intros Hg. induction xs as [|x xs IH]; simpl.
  - apply keeps_ret.
  - apply keeps_bind; [apply Hg|]. intros y.
    apply keeps_bind; [exact IH|]. intros ys. apply keeps_ret.
Qed.

Lemma keeps_filterM {A} (p : A -> JS bool) (xs : list A) :
  (forall x, keeps f (p x)) -> keeps f (filterM p xs).
Proof.
  intros Hp. induction xs as [|x xs IH]; simpl.
  - apply keeps_ret.
  - apply keeps_bind; [apply Hp|]. intros b.
    apply keeps_bind; [exact IH|]. intros ys. apply keeps_ret.
Qed.

Lemma keeps_forEachM {A} (body : A -> JS unit) (xs : list A) :
  (forall x, keeps f (body x)) -> keeps f (forEachM body xs).
Proof.
  intros Hb. induction xs as [|x xs IH]; simpl.
  - apply keeps_ret.
  - apply keeps_bind; [apply Hb|]. intros _. exact IH.
Qed.

Lemma keeps_emit (o : Output) : keeps f (emit o).
Proof. intros w. reflexivity. Qed.

Lemma keeps_reply (m : Message) : keeps f (reply m).
Proof. intros w. reflexivity. Qed.

Lemma keeps_isReplied : keeps f isReplied.
Proof. intros w. reflexivity. Qed.

Lemma keeps_Logger_error (a b : string) : keeps f (Logger_error a b).
Proof. intros w. reflexivity. Qed.

Lemma keeps_newMoment (m : Moment) : keeps f (newMoment m).
Proof. intros w. reflexivity. Qed.

Lemma keeps_getMoment (r : nat) : keeps f (getMoment r).
Proof. intros w. unfold getMoment. by destruct (moments w !! r). Qed.

Lemma keeps_setMoment (r : nat) (m : Moment) : keeps f (setMoment r m).
Proof. intros w. reflexivity. Qed.

Lemma keeps_newArray (a : list CarInsurance) : keeps f (newArray a).
Proof. intros w. reflexivity. Qed.

Lemma keeps_getArray (r : nat) : keeps f (getArray r).
Proof. intros w. unfold getArray. by destruct (arrays w !! r). Qed.

Lemma keeps_setArray (r : nat) (a : list CarInsurance) :
  keeps f (setArray r a).
Proof. intros w. reflexivity. Qed.

Lemma keeps_find : keeps f CarInsurance_find.
Proof. intros w. reflexivity. Qed.

Lemma keeps_find_sorted : keeps f CarInsurance_find_sorted.
Proof. intros w. reflexivity. Qed.

Lemma keeps_findOne (plate : string) : keeps f (CarInsurance_findOne plate).
Proof. intros w. reflexivity. Qed.

Lemma keeps_diverge {A} : keeps f (fun w => (@Diverge A, w)).
Proof. intros w. reflexivity. Qed.

Section WithEnv.

Variable E : Env.

Lemma keeps_readClock : keeps f (readClock E).
Proof. intros w. reflexivity. Qed.

Lemma keeps_search (p : string) : keeps f (CarInsurance_search E p).
Proof.
  intros w. unfold CarInsurance_search. by destruct (regexValid E p).
Qed.

End WithEnv.

End Keeps.

Create HintDb keeps.

#[local] Hint Resolve keeps_ret keeps_throw keeps_emit keeps_reply
  keeps_isReplied keeps_Logger_error keeps_newMoment keeps_getMoment
  keeps_setMoment keeps_newArray keeps_getArray keeps_setArray keeps_find
  keeps_find_sorted keeps_findOne keeps_diverge keeps_readClock keeps_search
  : keeps.

(** One step of the proof that a computation keeps a reading: through
    the monad, the control structure and the loops, down to the
    primitives. *)
Ltac keeps_unfold :=
  unfold followUp, respond, channel_send, Logger_log, Logger_database,
    spread, array_length, chunkArray, moment_now, moment_of, m_clone, m_tz,
    m_add, m_subtract, m_toDate, m_format, formatNow, fromNow, getDaysLeft,
    renderCar, needsAlert, suggestion, scheduledPage, manualPage, listPage,
    ignoreResult, chunkCopy; cbv beta zeta.

Ltac keeps_step :=
  lazymatch goal with
  | |- keeps _ (bind _ _) => apply keeps_bind; [|intros ?]
  | |- keeps _ (tryCatch _ _) => apply keeps_tryCatch; [|intros ?]
  | |- keeps _ (mapM _ _) => apply keeps_mapM; intros ?
  | |- keeps _ (filterM _ _) => apply keeps_filterM; intros ?
  | |- keeps _ (forEachM _ _) => apply keeps_forEachM; intros ?
  | |- keeps _ (if ?b then _ else _) => destruct b
  | |- keeps _ (match ?x with _ => _ end) => destruct x
  | |- keeps _ _ => first [solve [eauto with keeps] | progress keeps_unfold]
  end.

Ltac keeps_all := repeat keeps_step.

(** X2. The daily job, the manual alert, the listing, its collector and
    the autocomplete branch read the collection and never change it,
    whatever their outcome. *)
Theorem read_only_operations (E : Env) (i : Interaction) (c : Collector)
    (clicks : list ComponentInteraction) (w : World) :
  db (snd (scheduledJob E w)) = db w
  /\ db (snd (handleAlertInsurance E i w)) = db w
  /\ db (snd (handleListCarInsurance E i w)) = db w
  /\ db (snd (collectorClicks c clicks w)) = db w
  /\ db (snd (autocomplete E i w)) = db w.
Proof.
  assert (Hs : keeps id (scheduledJob E))
    by (unfold scheduledJob; keeps_all).
  assert (Ha : keeps id (handleAlertInsurance E i))
    by (unfold handleAlertInsurance; keeps_all).
  assert (Hl : keeps id (handleListCarInsurance E i))
    by (unfold handleListCarInsurance; keeps_all).
  assert (Hc : forall c, keeps id (collectorClicks c clicks)).
  { induction clicks as [|click rest IH]; intros c0; simpl.
    - apply keeps_ret.
    - apply keeps_bind; [|intros c1; apply IH].
      unfold collectorClick, listOnCollect. keeps_all. }
  assert (Hq : keeps id (autocomplete E i))
    by (unfold autocomplete; keeps_all).
  repeat split; [apply Hs|apply Ha|apply Hl|apply Hc|apply Hq].
Qed.

(** ** What the handlers keep of the collection *)

Lemma updateById_structure (c : CarInsurance) (d : list CarInsurance) :
  map structure (updateById c d) = map structure d.
Proof.
  induction d as [|x d IH]; [reflexivity|]. simpl.
  destruct (Nat.eqb (doc_id x) (doc_id c)); simpl; [reflexivity|].
  by rewrite IH.
Qed.

Lemma keeps_structure_save_loaded (c : CarInsurance) :
  keeps (map structure) (save_loaded c).
Proof. intros w. apply updateById_structure. Qed.

#[local] Hint Resolve keeps_structure_save_loaded : keeps.

Lemma handleAdd_keeps_structure (E : Env) (i : Interaction) :
  keeps (map structure) (handleAddCarInsurance E i).
Proof. unfold handleAddCarInsurance; cbv zeta; keeps_all. Qed.

Lemma handleLess_keeps_structure (E : Env) (i : Interaction) :
  keeps (map structure) (handleLessCarInsurance E i).
Proof. unfold handleLessCarInsurance; cbv zeta; keeps_all. Qed.

(** X3. Extending and reducing never add, remove, reorder or rename a
    record: identifiers, names, plates and registrars are as before,
    whatever the input and the outcome. *)
Theorem extend_reduce_keep_structure (E : Env) (i : Interaction) (w : World) :
  map structure (db (snd (handleAddCarInsurance E i w)))
  = map structure (db w)
  /\ map structure (db (snd (handleLessCarInsurance E i w)))
     = map structure (db w).
Proof.
  split; [apply handleAdd_keeps_structure | apply handleLess_keeps_structure].
Qed.

Lemma store_wf_structure (d d' : list CarInsurance) :
  map structure d' = map structure d -> store_wf d -> store_wf d'.
Proof.
  intros Hs (Hid & Hpl & Hv).
  assert (Hids : map doc_id d' = map doc_id d).
  { change doc_id with (fun c => fst (fst (fst (structure c)))).
    rewrite <- !(map_map structure (fun s => fst (fst (fst s)))).
    by rewrite Hs. }
  assert (Hpls : map numberPlate d' = map numberPlate d).
  { change numberPlate with (fun c => snd (fst (structure c))).
    rewrite <- !(map_map structure (fun s => snd (fst s))).
    by rewrite Hs. }
  split; [by rewrite Hids|]. split; [by rewrite Hpls|].
  apply (Forall_fmap numberPlate (fun p => validPlate p = true)).
  change (Forall (fun p => validPlate p = true) (map numberPlate d')).
  rewrite Hpls. by apply (Forall_fmap numberPlate (fun p => validPlate p = true)).
Qed.

Lemma removeFirst_subset (plate : string) (d : list CarInsurance)
    (x : CarInsurance) :
  In x (removeFirst plate d) -> In x d.
Proof.
  induction d as [|y d IH]; simpl; [done|].
  destruct (hasPlate plate y); [by right|].
  intros [->|H]; [by left | right; by apply IH].
Qed.

Lemma removeFirst_NoDup {B} (g : CarInsurance -> B) (plate : string)
    (d : list CarInsurance) :
  NoDup (map g d) -> NoDup (map g (removeFirst plate d)).
Proof.
  induction d as [|y d IH]; simpl; [done|].
  intros Hnd. apply NoDup_cons in Hnd as [Hy Hnd].
  destruct (hasPlate plate y); [exact Hnd|].
  simpl. apply NoDup_cons. split; [|by apply IH].
  intros Hin. apply Hy. apply list_elem_of_In in Hin.
  apply in_map_iff in Hin as (x & Hx & Hin).
  apply list_elem_of_In, in_map_iff. exists x. split; [exact Hx|].
  eapply removeFirst_subset, Hin.
Qed.

Lemma store_wf_removeFirst (plate : string) (d : list CarInsurance) :
  store_wf d -> store_wf (removeFirst plate d).
Proof.
  intros (Hid & Hpl & Hv).
  split; [by apply removeFirst_NoDup|]. split; [by apply removeFirst_NoDup|].
  apply List.Forall_forall. intros x Hx.
  rewrite List.Forall_forall in Hv. eapply Hv, removeFirst_subset, Hx.
Qed.

Lemma freshId_fresh (d : list CarInsurance) : ~ In (freshId d) (map doc_id d).
Proof.
  unfold freshId. intros Hin.
  assert (H : Forall (fun k => (k <= list_max (map doc_id d))%nat)
                (map doc_id d)) by (by apply list_max_le).
  rewrite List.Forall_forall in H. specialize (H _ Hin). lia.
Qed.

Lemma existsb_hasPlate_false (plate : string) (d : list CarInsurance) :
  existsb (hasPlate plate) d = false -> ~ In plate (map numberPlate d).
Proof.
  intros Hex Hin. apply in_map_iff in Hin as (x & Hx & Hin).
  assert (existsb (hasPlate plate) d = true); [|congruence].
  apply existsb_exists. exists x. split; [exact Hin|].
  unfold hasPlate. rewrite Hx. apply String.eqb_refl.
Qed.

Lemma store_wf_snoc (d : list CarInsurance) (c : CarInsurance) :
  store_wf d ->
  ~ In (doc_id c) (map doc_id d) ->
  ~ In (numberPlate c) (map numberPlate d) ->
  validPlate (numberPlate c) = true ->
  store_wf (d ++ [c]).
Proof.
  intros (Hid & Hpl & Hv) Hc Hp Hvalid.
  rewrite <- list_elem_of_In in Hc. rewrite <- list_elem_of_In in Hp.
  split; [|split].
  - rewrite map_app. apply NoDup_app. split; [exact Hid|].
    split; [|apply NoDup_singleton].
    intros x Hx Hx'. apply list_elem_of_singleton in Hx'. by subst.
  - rewrite map_app. apply NoDup_app. split; [exact Hpl|].
    split; [|apply NoDup_singleton].
    intros x Hx Hx'. apply list_elem_of_singleton in Hx'. by subst.
  - apply Forall_app. split; [exact Hv|]. by constructor.
Qed.

(** The collection after [handleNewCarInsurance]: as before, or with
    one more document at the end, with a new [_id], a well-formed plate
    that no document had, and the name and the registrar given. *)
Lemma handleNew_db (E : Env) (i : Interaction) (w : World) :
  let w' := snd (handleNewCarInsurance E i w) in
  db w' = db w
  \/ exists c,
       db w' = db w ++ [c]
       /\ doc_id c = freshId (db w)
       /\ numberPlate c = getString i "number_plate"
       /\ carName c = getString i "car_name"
       /\ addedBy c = user_tag i
       /\ validPlate (numberPlate c) = true
       /\ existsb (hasPlate (numberPlate c)) (db w) = false.
Proof.
  unfold handleNewCarInsurance. cbv zeta.
  destruct (validPlate (getString i "number_plate")) eqn:Hvalid; js_run;
    [|by left].
  destruct (validDoc _) eqn:Hdoc; js_run; [|by left].
  destruct (existsb _ (db w)) eqn:Hex; js_run; [by left|].
  right. eexists. split; [reflexivity|]. cbn [doc_id numberPlate carName addedBy].
  repeat split; assumption.
Qed.

Lemma handleRemove_db (E : Env) (i : Interaction) (w : World) :
  let w' := snd (handleRemoveCarInsurance E i w) in
  db w' = db w
  \/ (getString i "password" = "slayers1"
      /\ db w' = removeFirst (getString i "number_plate") (db w)).
Proof.
  unfold handleRemoveCarInsurance. cbv zeta.
  destruct (String.prefix _ _); js_run; [by left|].
  destruct (String.eqb_spec (getString i "password") "slayers1") as [Hpw|Hpw];
    js_run; [|by left].
  unfold CarInsurance_findOneAndDelete. js_run.
  right. split; [exact Hpw|].
  destruct (List.find _ (db w)); js_run; reflexivity.
Qed.

(** X4. Every command that writes keeps the collection well formed:
    distinct identifiers, distinct plates, well-formed plates. *)
Theorem handlers_keep_store_wf (E : Env) (i : Interaction) (w : World) :
  store_wf (db w) ->
  store_wf (db (snd (handleNewCarInsurance E i w)))
  /\ store_wf (db (snd (handleAddCarInsurance E i w)))
  /\ store_wf (db (snd (handleLessCarInsurance E i w)))
  /\ store_wf (db (snd (handleRemoveCarInsurance E i w))).
Proof.
  intros Hwf.
  pose proof (handleAdd_keeps_structure E i w) as Ha.
  pose proof (handleLess_keeps_structure E i w) as Hl.
  split; [|split; [|split]].
  - destruct (handleNew_db E i w) as [->|(c & -> & Hid & Hpl & _ & _ & Hv & Hex)];
      [exact Hwf|].
    apply store_wf_snoc; [exact Hwf | | | exact Hv].
    + rewrite Hid. apply freshId_fresh.
    + by apply existsb_hasPlate_false.
  - by apply (store_wf_structure (db w)).
  - by apply (store_wf_structure (db w)).
  - destruct (handleRemove_db E i w) as [->|[_ ->]]; [exact Hwf|].
    by apply store_wf_removeFirst.
Qed.

Lemma handlers_keep_store_wf_witness :
  let i := sampleInteraction Command "new_car_insurance" "MH01-AB-1234" 30
             ["900"] in
  let w := withDb [sampleCar 1 "AB-12" 1793491200000] emptyWorld in
  store_wf (db (snd (handleNewCarInsurance sampleEnv i w))).
Proof.
  intros i w.
  apply (handlers_keep_store_wf sampleEnv i w).
  split; [apply NoDup_singleton|]. split; [apply NoDup_singleton|].
  constructor; [reflexivity | constructor].
Defined.

(** ** Removal *)

Lemma find_removeFirst_other (plate q : string) (d : list CarInsurance) :
  q <> plate ->
  List.find (hasPlate q) (removeFirst plate d) = List.find (hasPlate q) d.
Proof.
  intros Hne. induction d as [|x d IH]; [reflexivity|]. simpl.
  destruct (hasPlate plate x) eqn:Hp.
  - destruct (hasPlate q x) eqn:Hq; [|reflexivity].
    unfold hasPlate in *. apply String.eqb_eq in Hp, Hq. congruence.
  - simpl. by rewrite IH.
Qed.

Lemma find_none_intro {A} (p : A -> bool) (l : list A) :
  (forall x, In x l -> p x = false) -> List.find p l = None.
Proof.
  induction l as [|x l IH]; [reflexivity|]. intros H. simpl.
  rewrite (H x (or_introl eq_refl)). apply IH. intros y Hy. apply H. by right.
Qed.

Lemma find_removeFirst_same (plate : string) (d : list CarInsurance) :
  NoDup (map numberPlate d) ->
  List.find (hasPlate plate) (removeFirst plate d) = None.
Proof.
  induction d as [|x d IH]; [reflexivity|]. simpl. intros Hnd.
  apply NoDup_cons in Hnd as [Hx Hnd].
  destruct (hasPlate plate x) eqn:Hp.
  - apply find_none_intro. intros y Hy. unfold hasPlate in *.
    apply String.eqb_eq in Hp. apply String.eqb_neq. intros Hy'.
    apply Hx. rewrite Hp, <- Hy'. by apply list_elem_of_In, in_map.
  - simpl. rewrite Hp. by apply IH.
Qed.

Lemma length_removeFirst (plate : string) (d : list CarInsurance)
    (c : CarInsurance) :
  List.find (hasPlate plate) d = Some c ->
  S (length (removeFirst plate d)) = length d.
Proof.
  induction d as [|x d IH]; [discriminate|]. simpl.
  destruct (hasPlate plate x); [reflexivity|].
  intros H. simpl. by rewrite IH.
Qed.

(** X5. Without the removal password nothing is deleted, whatever plate
    is named. *)
Theorem remove_needs_password (E : Env) (i : Interaction) (w : World) :
  getString i "password" <> "slayers1" ->
  db (snd (handleRemoveCarInsurance E i w)) = db w.
Proof.
  intros Hpw. destruct (handleRemove_db E i w) as [H|[H _]]; [exact H|].
  contradiction.
Qed.

Lemma remove_needs_password_witness :
  let i := sampleInteraction Command "remove_car_insurance" "AB-12" 0 ["900"] in
  let w := withDb [sampleCar 1 "AB-12" 1793491200000] emptyWorld in
  db (snd (handleRemoveCarInsurance sampleEnv i w)) = db w.
Proof.
  intros i w. apply (remove_needs_password sampleEnv i w). discriminate.
Defined.



(** ** Plates that are not registered *)



(** ** The tag of the suggestion to register *)

Lemma substring_all (s : string) : String.substring 0 (String.length s) s = s.
Proof. induction s as [|a s IH]; simpl; [reflexivity | by rewrite IH]. Qed.

Lemma stripNewCar_tag (typed : string) :
  stripNewCar ("new_car_" +:+ typed) = typed.
Proof.
  unfold stripNewCar. simpl. rewrite Nat.sub_0_r. apply substring_all.
Qed.

Lemma prefix_tag (typed : string) :
  String.prefix "new_car_" ("new_car_" +:+ typed) = true.
Proof. destruct typed; reflexivity. Qed.

Lemma prefix_cons_inv (a b : ascii) (s1 s2 : string) :
  String.prefix (String a s1) (String b s2) = true ->
  a = b /\ String.prefix s1 s2 = true.
Proof.
  cbn [String.prefix]. destruct (ascii_dec a b); [auto | discriminate].
Qed.

Lemma validPlate_not_tagged (plate : string) :
  validPlate plate = true -> String.prefix "new_car_" plate = false.
Proof.
  intros Hvalid.
  destruct (String.prefix "new_car_" plate) eqn:Hp; [exfalso|reflexivity].
  do 4 (destruct plate as [|? plate]; [discriminate Hp|];
        apply prefix_cons_inv in Hp as [<- Hp]).
  unfold validPlate in Hvalid. apply andb_true_iff in Hvalid as [_ Hall].
  cbn [list_ascii_of_string forallb] in Hall.
  change (plateChar "_") with false in Hall.
  rewrite !andb_false_r in Hall. discriminate Hall.
Qed.

(** X8. A plate that passes the validation never starts with the tag
    [new_car_]: the tag has an underscore, which no plate may have. So
    no vehicle that can be registered is hidden by the redirection of
    tagged values. *)
Theorem valid_plate_is_not_tagged (plate : string) :
  validPlate plate = true -> String.prefix "new_car_" plate = false.
Proof. apply validPlate_not_tagged. Qed.

Lemma valid_plate_is_not_tagged_witness :
  String.prefix "new_car_" "MH01-AB-1234" = false.
Proof. apply (valid_plate_is_not_tagged "MH01-AB-1234"). reflexivity. Defined.





(** ** The pages of an alert, for any number of documents *)

Lemma world_eta (w : World) : withOut (out w ++ []) (withTicks (ticks w) w) = w.
Proof. destruct w. unfold withOut, withTicks. simpl. by rewrite app_nil_r. Qed.

Section AlertPages.

Variables (E : Env) (page : nat * list CarInsurance -> JS unit)
          (mentions : string) (r : nat) (sel : list CarInsurance).

Hypothesis page_run :
  forall entry w,
    arrays w !! r = Some sel ->
    exists m,
      page entry w
      = (Ok tt, withOut (out w ++ [OutChannelSend m])
                  (withTicks (S (ticks w) + 2 * length (snd entry))%nat w))
      /\ alertPageOf E mentions (ticks w) entry m.

Lemma alertPageOf_earlier (t0 t1 : nat) (entry : nat * list CarInsurance)
    (m : Message) :
  (t0 <= t1)%nat ->
  alertPageOf E mentions t1 entry m -> alertPageOf E mentions t0 entry m.
Proof.
  intros Hle (Hc & e & t & Ht & H). split; [exact Hc|].
  exists e, t. split; [lia | exact H].
Qed.

(** The loop posts one message per chunk, in order, and does nothing
    else but read the clock. *)
Lemma alertPages_run (entries : list (nat * list CarInsurance)) :
  forall w,
    arrays w !! r = Some sel ->
    exists msgs t,
      forEachM page entries w
      = (Ok tt, withOut (out w ++ map OutChannelSend msgs) (withTicks t w))
      /\ Forall2 (alertPageOf E mentions (ticks w)) entries msgs.
Proof.
  induction entries as [|entry rest IH]; intros w Hr.
  - exists [], (ticks w). simpl. unfold ret. rewrite world_eta.
    split; [reflexivity | constructor].
  - destruct (page_run entry w Hr) as (m & Hm & Hpage).
    destruct (IH (withOut (out w ++ [OutChannelSend m])
                    (withTicks (S (ticks w) + 2 * length (snd entry))%nat w))
                Hr) as (msgs & t & Hrest & Hall).
    exists (m :: msgs), t. cbn [forEachM]. unfold bind. rewrite Hm, Hrest.
    split.
    + unfold withOut, withTicks. simpl. by rewrite <- app_assoc.
    + constructor; [exact Hpage|].
      eapply Forall2_impl; [exact Hall|].
      intros entry' m'. apply alertPageOf_earlier. simpl. lia.
Qed.

End AlertPages.

Lemma alertPages_totals (E : Env) (mentions : string) (t0 : nat)
    (pages : list (list CarInsurance)) :
  forall (k : nat) (msgs : list Message),
    Forall2 (alertPageOf E mentions t0) (entriesFrom k pages) msgs ->
    length msgs = length pages
    /\ length (concat (map postFields msgs)) = length (concat pages)
    /\ forall j m, msgs !! j = Some m ->
         content m = if Nat.eqb (k + j) 0 then Some mentions else None.
Proof.
  induction pages as [|chunk pages IH]; intros k msgs Hall; simpl in Hall.
  - inversion Hall; subst. repeat split; try reflexivity.
    intros j m Hj. by rewrite lookup_nil in Hj.
  - inversion Hall as [|entry m es ms Hm Hrest]; subst.
    destruct (IH (S k) ms Hrest) as (Hlen & Hsum & Hcontent).
    destruct Hm as (Hc & e & t & _ & He & Hf & _). simpl in *.
    split; [by rewrite Hlen|]. split.
    + unfold postFields at 1. rewrite He. simpl.
      rewrite app_nil_r, !length_app, Hf, renderCarsFrom_length, Hsum.
      reflexivity.
    + intros [|j] m' Hj; simpl in Hj.
      * injection Hj as <-. by rewrite Nat.add_0_r.
      * rewrite (Hcontent j m' Hj).
        by replace (k + S j)%nat with (S k + j)%nat by lia.
Qed.

Lemma pages_of_ten {A} (sel : list A) :
  exists pages,
    chunkArrayOn sel 10 = Some (pages, [])
    /\ concat pages = sel
    /\ Z.of_nat (length pages)
       = Math_ceil (inject_Z (Z.of_nat (length sel)) / inject_Z 10)%Q.
Proof.
  destruct (chunkArrayOn_spec 10 ltac:(lia) sel) as
    (pages & Hrun & Hcat & _ & _ & Hlo & Hhi).
  exists pages. split; [exact Hrun|]. split; [exact Hcat|].
  symmetry. apply Qceiling_unique.
  - apply Qlt_shift_div_l; [reflexivity|].
    rewrite <- inject_Z_mult, <- Zlt_Qlt. lia.
  - apply Qle_shift_div_r; [reflexivity|].
    rewrite <- inject_Z_mult, <- Zle_Qle. lia.
Qed.

Lemma scheduledPage_run (E : Env) (r : nat) (sel : list CarInsurance)
    (entry : nat * list CarInsurance) (w : World) :
  arrays w !! r = Some sel ->
  exists m,
    scheduledPage E r entry w
    = (Ok tt, withOut (out w ++ [OutChannelSend m])
                (withTicks (S (ticks w) + 2 * length (snd entry))%nat w))
    /\ alertPageOf E (alertMentions E "**IMMEDIATE ATTENTION REQUIRED**")
         (ticks w) entry m.
Proof.
  intros Hr. destruct entry as [[|k] chunk]; unfold scheduledPage.
  - js_eval. rewrite Hr. js_eval. rewrite mapM_renderCar. js_eval.
    eexists. split; [reflexivity|]. split; [reflexivity|].
    do 2 eexists. split; [|split; [reflexivity|split; [reflexivity|]]].
    { apply Nat.le_succ_diag_r. }
    cbn [description fst]. split; [discriminate | congruence].
  - js_eval. rewrite mapM_renderCar. js_eval.
    eexists. split; [reflexivity|]. split; [reflexivity|].
    do 2 eexists. split; [|split; [reflexivity|split; [reflexivity|]]].
    { apply Nat.le_succ_diag_r. }
    cbn [description fst]. split; [discriminate | reflexivity].
Qed.

Lemma manualPage_run (E : Env) (tag : string) (r : nat)
    (sel : list CarInsurance) (entry : nat * list CarInsurance) (w : World) :
  arrays w !! r = Some sel ->
  exists m,
    manualPage E tag r entry w
    = (Ok tt, withOut (out w ++ [OutChannelSend m])
                (withTicks (S (ticks w) + 2 * length (snd entry))%nat w))
    /\ alertPageOf E
         (alertMentions E "**MANUAL ALERT: IMMEDIATE ACTION REQUIRED**")
         (ticks w) entry m.
Proof.
  intros Hr. destruct entry as [[|k] chunk]; unfold manualPage.
  - js_eval. rewrite Hr. js_eval. rewrite mapM_renderCar. js_eval.
    eexists. split; [reflexivity|]. split; [reflexivity|].
    do 2 eexists. split; [|split; [reflexivity|split; [reflexivity|]]].
    { apply Nat.le_succ_diag_r. }
    cbn [description fst]. split; [discriminate | congruence].
  - js_eval. rewrite mapM_renderCar. js_eval.
    eexists. split; [reflexivity|]. split; [reflexivity|].
    do 2 eexists. split; [|split; [reflexivity|split; [reflexivity|]]].
    { apply Nat.le_succ_diag_r. }
    cbn [description fst]. split; [discriminate | reflexivity].
Qed.

(** The run of the daily job on a selection that is not empty. *)
Lemma scheduledJob_pages (E : Env) (w : World) :
  channelCached E (process_env E "ALERT_CHANNEL_ID") = true ->
  let sel := alertSelection E (S (ticks w)) (db w) in
  sel <> [] ->
  exists pages msgs,
    chunkArrayOn sel 10 = Some (pages, [])
    /\ concat pages = sel
    /\ Z.of_nat (length pages)
       = Math_ceil (inject_Z (Z.of_nat (length sel)) / inject_Z 10)%Q
    /\ fst (scheduledJob E w) = Ok tt
    /\ out (snd (scheduledJob E w))
       = out w
         ++ [OutLog "INFO" "Running scheduled insurance check"]
         ++ map OutChannelSend msgs
         ++ [OutLog "SUCCESS"
               ("Sent alert for " +:+ pretty (length sel) +:+ " cars in "
                +:+ pretty (length pages) +:+ " parts")]
    /\ Forall2
         (alertPageOf E (alertMentions E "**IMMEDIATE ATTENTION REQUIRED**")
            (S (ticks w) + length (db w)))
         (entriesFrom 0 pages) msgs.
Proof.
  intros Hchan sel Hsel.
  destruct (pages_of_ten sel) as (pages & Hrun & Hcat & Hceil).
  unfold scheduledJob. js_eval. rewrite Hchan. js_eval.
  rewrite filterM_needsAlert. js_run. fold sel.
  assert (Hpos : (0 <? length sel)%nat = true) by (by destruct sel).
  rewrite Hpos. unfold chunkArray. js_run.
  rewrite Hrun. js_run.
  match goal with
  | |- context [forEachM ?p ?es ?w0] =>
      destruct (alertPages_run E p
                  (alertMentions E "**IMMEDIATE ATTENTION REQUIRED**")
                  (length (arrays w)) sel
                  (scheduledPage_run E (length (arrays w)) sel) es w0)
        as (msgs & t & Hloop & Hall)
  end.
  { js_run. reflexivity. }
  rewrite Hloop. js_run.
  exists pages, msgs. split; [reflexivity|]. split; [exact Hcat|].
  split; [exact Hceil|]. split; [reflexivity|]. split; [|exact Hall].
  rewrite <- !app_assoc. reflexivity.
Qed.

(** The run of the manual alert on a selection that is not empty. *)
Lemma manualAlert_pages (E : Env) (i : Interaction) (w : World) :
  channelCached E (process_env E "ALERT_CHANNEL_ID") = true ->
  let sel := alertSelection E (ticks w) (db w) in
  sel <> [] ->
  exists pages msgs,
    chunkArrayOn sel 10 = Some (pages, [])
    /\ concat pages = sel
    /\ Z.of_nat (length pages)
       = Math_ceil (inject_Z (Z.of_nat (length sel)) / inject_Z 10)%Q
    /\ fst (handleAlertInsurance E i w) = Ok tt
    /\ out (snd (handleAlertInsurance E i w))
       = out w
         ++ map OutChannelSend msgs
         ++ [OutReply
               (textReply
                  ("✅ Alert sent to <#" +:+ envText E "ALERT_CHANNEL_ID"
                   +:+ "> (" +:+ pretty (length sel) +:+ " cars in "
                   +:+ pretty (length pages) +:+ " parts)"));
             OutLog "INFO"
               ("Manual alert triggered by " +:+ user_tag i +:+ " for "
                +:+ pretty (length sel) +:+ " cars")]
    /\ Forall2
         (alertPageOf E
            (alertMentions E "**MANUAL ALERT: IMMEDIATE ACTION REQUIRED**")
            (ticks w + length (db w)))
         (entriesFrom 0 pages) msgs.
Proof.
  intros Hchan sel Hsel.
  destruct (pages_of_ten sel) as (pages & Hrun & Hcat & Hceil).
  unfold handleAlertInsurance. js_eval. rewrite Hchan. js_eval.
  rewrite filterM_needsAlert. js_run. fold sel.
  assert (Hpos : Nat.eqb (length sel) 0 = false) by (by destruct sel).
  rewrite Hpos. unfold chunkArray. js_run.
  rewrite Hrun. js_run.
  match goal with
  | |- context [forEachM ?p ?es ?w0] =>
      destruct (alertPages_run E p
                  (alertMentions E
                     "**MANUAL ALERT: IMMEDIATE ACTION REQUIRED**")
                  (length (arrays w)) sel
                  (manualPage_run E (user_tag i) (length (arrays w)) sel)
                  es w0)
        as (msgs & t & Hloop & Hall)
  end.
  { js_run. reflexivity. }
  rewrite Hloop. js_run.
  exists pages, msgs. split; [reflexivity|]. split; [exact Hcat|].
  split; [exact Hceil|]. split; [reflexivity|]. split; [|exact Hall].
  rewrite <- !app_assoc. reflexivity.
Qed.

Lemma channelPosts_sends (msgs : list Message) :
  channelPosts (map OutChannelSend msgs) = msgs.
Proof. induction msgs as [|m msgs IH]; simpl; [|rewrite IH]; reflexivity. Qed.





Lemma scheduledJob_nothing (E : Env) (w : World) :
  channelCached E (process_env E "ALERT_CHANNEL_ID") = true ->
  alertSelection E (S (ticks w)) (db w) = [] ->
  fst (scheduledJob E w) = Ok tt
  /\ out (snd (scheduledJob E w))
     = out w ++ [OutLog "INFO" "Running scheduled insurance check";
                 OutLog "INFO" "No expiring insurances found"].
Proof.
  intros Hchan Hsel.
  unfold scheduledJob. js_eval. rewrite Hchan. js_eval.
  rewrite filterM_needsAlert. js_run. rewrite Hsel.
  cbn [length Nat.ltb Nat.leb]. js_run.
  split; [reflexivity|]. by rewrite <- app_assoc.
Qed.

Lemma manualAlert_nothing (E : Env) (i : Interaction) (w : World) :
  channelCached E (process_env E "ALERT_CHANNEL_ID") = true ->
  alertSelection E (ticks w) (db w) = [] ->
  fst (handleAlertInsurance E i w) = Ok tt
  /\ exists m,
       out (snd (handleAlertInsurance E i w)) = out w ++ [OutReply m]
       /\ embedTitle m = Some "✅ ALL INSURANCES ACTIVE"
       /\ ephemeral m = true.
Proof.
  intros Hchan Hsel.
  unfold handleAlertInsurance. js_eval. rewrite Hchan. js_eval.
  rewrite filterM_needsAlert. js_run. rewrite Hsel.
  cbn [length]. js_run.
  split; [reflexivity|]. eexists. repeat split.
Qed.

(** X13. When no document is selected, the daily job posts nothing and
    only writes its two log lines, while the manual alert answers the
    operator with ALL INSURANCES ACTIVE and posts nothing either. *)
Theorem alert_with_nothing_due (E : Env) (i : Interaction) (w : World) :
  channelCached E (process_env E "ALERT_CHANNEL_ID") = true ->
  (alertSelection E (S (ticks w)) (db w) = [] ->
   fst (scheduledJob E w) = Ok tt
   /\ out (snd (scheduledJob E w))
      = out w ++ [OutLog "INFO" "Running scheduled insurance check";
                  OutLog "INFO" "No expiring insurances found"])
  /\ (alertSelection E (ticks w) (db w) = [] ->
      fst (handleAlertInsurance E i w) = Ok tt
      /\ exists m,
           out (snd (handleAlertInsurance E i w)) = out w ++ [OutReply m]
           /\ embedTitle m = Some "✅ ALL INSURANCES ACTIVE"
           /\ ephemeral m = true).
Proof.
  intros Hchan. split; intros Hsel.
  - by apply scheduledJob_nothing.
  - by apply manualAlert_nothing.
Qed.

Lemma alert_with_nothing_due_witness :
  let w := withDb [sampleCar 1 "AB-12" (1793491200000 + 30 * MS_PER_DAY)]
             emptyWorld in
  channelPosts (out (snd (scheduledJob sampleEnv w))) = [].
Proof.
  intros w.
  destruct (alert_with_nothing_due sampleEnv
              (sampleInteraction Command "alert_insurance" "" 0 ["900"]) w
              eq_refl) as [H _].
  destruct (H eq_refl) as [_ Hout]. rewrite Hout. reflexivity.
Defined.

(** X14. When the alert channel is not found, nothing is posted and the
    handler ends in the [TypeError] of the call of [Logger.error],
    which the class [Logger] does not define: the daily job after its
    first log line, the manual alert after telling the operator that
    the channel is not configured. *)
Theorem alert_without_channel (E : Env) (i : Interaction) (w : World) :
  channelCached E (process_env E "ALERT_CHANNEL_ID") = false ->
  scheduledJob E w
  = (Throw TypeError,
     withOut (out w ++ [OutLog "INFO" "Running scheduled insurance check"])
       (withTicks (S (ticks w)) w))
  /\ handleAlertInsurance E i w
     = (Throw TypeError,
        withReplied true
          (withOut (out w ++ [OutReply
                                (textReply "❌ Alert channel not configured")])
             w)).
Proof.
  intros Hchan. split.
  - unfold scheduledJob. js_eval. rewrite Hchan. js_eval. reflexivity.
  - unfold handleAlertInsurance. js_eval. rewrite Hchan. js_eval.
    reflexivity.
Qed.

Lemma alert_without_channel_witness :
  fst (scheduledJob
         {| clock := clock sampleEnv; zoneOffset := zoneOffset sampleEnv;
            hostTZA_utc := hostTZA_utc sampleEnv;
            hostTZA_local := hostTZA_local sampleEnv;
            format_DD_MMM_YYYY := format_DD_MMM_YYYY sampleEnv;
            format_DD_MMM_YYYY_hh_mm_A := format_DD_MMM_YYYY_hh_mm_A sampleEnv;
            fromNowText := fromNowText sampleEnv;
            toUpperCase := toUpperCase sampleEnv;
            regexValid := regexValid sampleEnv;
            regexSearchI := regexSearchI sampleEnv;
            process_env := process_env sampleEnv;
            channelCached := fun _ => false |} emptyWorld)
  = Throw TypeError.
Proof.
  match goal with
  | |- fst (scheduledJob ?e ?w) = _ =>
      destruct (alert_without_channel e
                  (sampleInteraction Command "alert_insurance" "" 0 ["900"])
                  w eq_refl) as [H _]
  end.
  rewrite H. reflexivity.
Defined.

(** ** Days left, as the clock and the expiry move *)

Lemma daysLeftAt_bounds (E : Env) (now expiry : Z) :
  (daysLeftAt E now expiry - 1) * MS_PER_DAY
  < wallClock E expiry - wallClock E now
  <= daysLeftAt E now expiry * MS_PER_DAY.
Proof.
  unfold daysLeftAt. rewrite diff_days_wall. apply ceil_days_bounds.
Qed.

Lemma days_left_monotone_aux (E : Env) (now1 now2 expiry1 expiry2 : Z) :
  wallClock E expiry1 <= wallClock E expiry2 ->
  wallClock E now2 <= wallClock E now1 ->
  daysLeftAt E now1 expiry1 <= daysLeftAt E now2 expiry2.
Proof.
  intros He Hn.
  pose proof (daysLeftAt_bounds E now1 expiry1) as H1.
  pose proof (daysLeftAt_bounds E now2 expiry2) as H2.
  unfold MS_PER_DAY in *. lia.
Qed.

Lemma status_of_due (daysLeft : Z) :
  daysLeft <= 3 ->
  getStatusEmoji daysLeft = "❌ EXPIRED"
  \/ getStatusEmoji daysLeft = "🚨 URGENT".
Proof.
  intros Hd. unfold getStatusEmoji.
  destruct (Z.leb_spec daysLeft 0); [by left|].
  rewrite (proj2 (Z.leb_le _ _)) by lia. by right.
Qed.

(** X15. Days left never decrease when the expiry moves later nor when
    the clock moves earlier, on the wall clock of the zone. *)
Theorem days_left_monotone (E : Env) (now1 now2 expiry1 expiry2 : Z) :
  wallClock E expiry1 <= wallClock E expiry2 ->
  wallClock E now2 <= wallClock E now1 ->
  daysLeftAt E now1 expiry1 <= daysLeftAt E now2 expiry2.
Proof. apply days_left_monotone_aux. Qed.

Lemma days_left_monotone_witness :
  daysLeftAt sampleEnv 1793491200000 1793491200001
  <= daysLeftAt sampleEnv 1793491200000 (1793491200000 + MS_PER_DAY).
Proof.
  apply (days_left_monotone sampleEnv); vm_compute; discriminate.
Defined.

Lemma daysLeftAt_shift (E : Env) (now expiry n : Z) :
  zoneOffset E (expiry + n * MS_PER_DAY) = zoneOffset E expiry ->
  daysLeftAt E now (expiry + n * MS_PER_DAY) = daysLeftAt E now expiry + n.
Proof.
  intros Hoff.
  pose proof (daysLeftAt_bounds E now expiry) as H1.
  pose proof (daysLeftAt_bounds E now (expiry + n * MS_PER_DAY)) as H2.
  unfold wallClock in *. rewrite Hoff in H2.
  unfold MS_PER_DAY in *. lia.
Qed.

(** X16. Moving the expiry by whole days moves the days left by as many,
    at the same clock reading, when the zone has the same offset at
    both expiries. *)
Theorem days_left_whole_days (E : Env) (now expiry n : Z) :
  zoneOffset E (expiry + n * MS_PER_DAY) = zoneOffset E expiry ->
  daysLeftAt E now (expiry + n * MS_PER_DAY) = daysLeftAt E now expiry + n.
Proof. apply daysLeftAt_shift. Qed.

Lemma days_left_whole_days_witness :
  daysLeftAt sampleEnv 1793491200000 (1793491200001 + 30 * MS_PER_DAY)
  = daysLeftAt sampleEnv 1793491200000 1793491200001 + 30.
Proof. apply (days_left_whole_days sampleEnv). reflexivity. Defined.

(** The alerts select a vehicle exactly when the status shown for
    its days left is EXPIRED or URGENT. *)
Theorem alert_threshold_matches_status (daysLeft : Z) :
  (daysLeft <=? 3) = true
  <-> getStatusEmoji daysLeft = "❌ EXPIRED"
      \/ getStatusEmoji daysLeft = "🚨 URGENT".
Proof.
  unfold getStatusEmoji.
  destruct (Z.leb_spec daysLeft 0); [rewrite (proj2 (Z.leb_le _ _)) by lia; tauto|].
  destruct (Z.leb_spec daysLeft 3); [tauto|].
  destruct (Z.leb_spec daysLeft 7); split; try discriminate;
    intros [H'|H']; discriminate H'.
Qed.

(** ** Alerts list only vehicles that are due *)

Lemma alertSelection_due (E : Env) (car : CarInsurance)
    (cars : list CarInsurance) :
  forall t,
    In car (alertSelection E t cars) ->
    In car cars
    /\ exists ts, (t <= ts < t + length cars)%nat
                  /\ daysLeftAt E (clock E ts) (expiryDate car) <= 3.
Proof.
  induction cars as [|c cars IH]; intros t Hin; [destruct Hin|].
  simpl in Hin.
  destruct (Z.leb_spec (daysLeftAt E (clock E t) (expiryDate c)) 3) as [Hle|_].
  - destruct Hin as [->|Hin].
    + split; [by left|]. exists t. simpl. split; [lia | exact Hle].
    + destruct (IH (S t) Hin) as (Hc & ts & Hts & Hd).
      split; [by right|]. exists ts. simpl. split; [lia | exact Hd].
  - destruct (IH (S t) Hin) as (Hc & ts & Hts & Hd).
    split; [by right|]. exists ts. simpl. split; [lia | exact Hd].
Qed.

Lemma renderCarsFrom_fields (E : Env) (f : Field)
    (chunk : list CarInsurance) :
  forall t,
    In f (renderCarsFrom E t chunk) ->
    exists car tr,
      In car chunk /\ (t <= tr)%nat
      /\ f = carField E (daysLeftAt E (clock E tr) (expiryDate car))
               (fromNowText E (lastUpdated car) (clock E (S tr))) car.
Proof.
  induction chunk as [|c chunk IH]; intros t Hin; [destruct Hin|].
  simpl in Hin. destruct Hin as [<-|Hin].
  - exists c, t. split; [by left|]. split; [lia | reflexivity].
  - destruct (IH _ Hin) as (car & tr & Hc & Ht & Hf).
    exists car, tr. split; [by right|]. split; [lia | exact Hf].
Qed.

Lemma alertPages_due (E : Env) (mentions : string) (t0 : nat)
    (cars : list CarInsurance) (pages : list (list CarInsurance)) :
  clockMonotone E ->
  (forall car, In car (concat pages) ->
     In car cars
     /\ exists ts, (ts <= t0)%nat
                   /\ daysLeftAt E (clock E ts) (expiryDate car) <= 3) ->
  forall (k : nat) (msgs : list Message),
    Forall2 (alertPageOf E mentions t0) (entriesFrom k pages) msgs ->
    forall m f, In m msgs -> In f (postFields m) -> dueField E cars f.
Proof.
  intros Hclock. induction pages as [|chunk pages IH];
    intros Hsel k msgs Hall m f Hm Hf; simpl in Hall.
  - inversion Hall; subst. destruct Hm.
  - inversion Hall as [|entry m0 es ms Hpage Hrest]; subst.
    destruct Hm as [<-|Hm].
    + destruct Hpage as (_ & e & t & Ht & He & Hfields & _).
      unfold postFields in Hf. rewrite He in Hf. simpl in Hf.
      rewrite app_nil_r, Hfields in Hf.
      destruct (renderCarsFrom_fields E f chunk t Hf)
        as (car & tr & Hc & Htr & ->).
      destruct (Hsel car) as (Hin & ts & Hts & Hd).
      { simpl. apply in_or_app. by left. }
      assert (Hd' : daysLeftAt E (clock E tr) (expiryDate car) <= 3).
      { etransitivity; [|exact Hd].
        apply days_left_monotone_aux; [lia | apply Hclock; lia]. }
      exists car. do 2 eexists. split; [exact Hin|]. split; [exact Hd'|].
      split; [reflexivity|].
      apply status_of_due, Hd'.
    + apply (IH (fun car Hc => Hsel car (in_or_app _ _ _ (or_intror Hc)))
               (S k) ms Hrest m f Hm Hf).
Qed.


Lemma sampleEnv_clockMonotone : clockMonotone sampleEnv.
Proof. intros a b Hab. unfold wallClock. simpl. lia. Qed.


(** ** The listing *)

Lemma insertByExpiry_perm (c : CarInsurance) (l : list CarInsurance) :
  insertByExpiry c l ≡ₚ c :: l.
Proof.
  induction l as [|x l IH]; simpl; [reflexivity|].
  destruct (expiryDate c <? expiryDate x); [reflexivity|].
  rewrite IH. apply Permutation_swap.
Qed.

Lemma insertByExpiry_sorted (c : CarInsurance) (l : list CarInsurance) :
  sortedByExpiry l -> sortedByExpiry (insertByExpiry c l).
Proof.
  induction l as [|x l IH]; simpl; [by split|].
  intros [Hx Hl].
  destruct (Z.ltb_spec (expiryDate c) (expiryDate x)) as [Hlt|Hge]; simpl.
  - split; [|by split]. constructor; [lia|].
    eapply Forall_impl; [exact Hx|]. simpl. intros y Hy. lia.
  - split; [|by apply IH].
    rewrite insertByExpiry_perm. by constructor.
Qed.

(** The listing order: [sortByExpiry] returns the documents it is
    given, each once, in ascending order of expiry. *)
Theorem sortByExpiry_sorts (l : list CarInsurance) :
  sortByExpiry l ≡ₚ l /\ sortedByExpiry (sortByExpiry l).
Proof.
  unfold sortByExpiry. induction l as [|c l [IHp IHs]]; simpl; [by split|].
  split; [by rewrite insertByExpiry_perm, IHp|].
  by apply insertByExpiry_sorted.
Qed.

Lemma sortByExpiry_length (l : list CarInsurance) :
  length (sortByExpiry l) = length l.
Proof.
  unfold sortByExpiry. induction l as [|c l IH]; simpl; [reflexivity|].
  by rewrite (Permutation_length (insertByExpiry_perm c _)), <- IH.
Qed.

Lemma withTicks_same (w : World) : withTicks (ticks w) w = w.
Proof. by destruct w. Qed.

Lemma listPage_run (E : Env) (r : nat) (sorted : list CarInsurance)
    (total : nat) (entry : nat * list CarInsurance) (w : World) :
  arrays w !! r = Some sorted ->
  exists e t,
    listPage E r total entry w = (Ok e, withTicks t w)
    /\ listPageOf E entry e.
Proof.
  intros Hr. destruct entry as [[|k] chunk]; unfold listPage.
  - js_eval. rewrite Hr. js_eval. rewrite mapM_renderCar. js_eval.
    do 2 eexists. split; [reflexivity|]. split; [reflexivity|].
    eexists. reflexivity.
  - js_eval. rewrite mapM_renderCar. js_eval.
    do 2 eexists. split; [reflexivity|]. split; [reflexivity|].
    eexists. reflexivity.
Qed.

Lemma listPages_run (E : Env) (r : nat) (sorted : list CarInsurance)
    (total : nat) (entries : list (nat * list CarInsurance)) :
  forall w,
    arrays w !! r = Some sorted ->
    exists embeds t,
      mapM (listPage E r total) entries w = (Ok embeds, withTicks t w)
      /\ Forall2 (listPageOf E) entries embeds.
Proof.
  induction entries as [|entry rest IH]; intros w Hr.
  - exists [], (ticks w). simpl. unfold ret. rewrite withTicks_same.
    split; [reflexivity | constructor].
  - destruct (listPage_run E r sorted total entry w Hr) as (e & t & He & Hp).
    destruct (IH (withTicks t w) Hr) as (embeds & t' & Hrest & Hall).
    exists (e :: embeds), t'. cbn [mapM]. unfold bind at 1. rewrite He.
    unfold bind at 1. rewrite Hrest. unfold ret.
    split; [reflexivity | by constructor].
Qed.

Lemma entriesFrom_length {A} (xs : list A) :
  forall k, length (entriesFrom k xs) = length xs.
Proof. induction xs as [|x xs IH]; intros k; simpl; [|rewrite IH]; done. Qed.

(** X18. The listing of an empty collection is the private reply NO
    INSURANCES FOUND and leaves no collector. *)
Theorem list_of_empty_store (E : Env) (i : Interaction) (w : World) :
  db w = [] ->
  fst (handleListCarInsurance E i w) = Ok None
  /\ exists m,
       out (snd (handleListCarInsurance E i w)) = out w ++ [OutReply m]
       /\ embedTitle m = Some "📭 NO INSURANCES FOUND"
       /\ ephemeral m = true.
Proof.
  intros Hdb. unfold handleListCarInsurance, CarInsurance_find_sorted.
  js_run. rewrite Hdb. cbn [sortByExpiry foldr length]. js_run.
  split; [reflexivity|]. eexists. repeat split.
Qed.

Lemma list_of_empty_store_witness :
  fst (handleListCarInsurance sampleEnv
         (sampleInteraction Command "list_car_insurance" "" 0 ["900"])
         emptyWorld) = Ok None.
Proof.
  destruct (list_of_empty_store sampleEnv
              (sampleInteraction Command "list_car_insurance" "" 0 ["900"])
              emptyWorld eq_refl) as [H _].
  exact H.
Defined.



(** ** The collector over a sequence of clicks *)

Lemma listOnCollect_run (c : Collector) (w : World) :
  (currentPage c < length (col_embeds c))%nat ->
  let page := ((currentPage c + 1) mod length (col_embeds c))%nat in
  listOnCollect c w
  = (Ok {| col_user := col_user c; col_embeds := col_embeds c;
           currentPage := page |},
     withOut (out w ++ [OutUpdate
                          {| content := None;
                             embeds := pageAt (col_embeds c) page;
                             ephemeral := false;
                             components := [[prevButton; nextButton]] |}])
       w).
Proof.
  intros Hlt page. unfold listOnCollect. cbv zeta.
  assert (Hpage : (if (length (col_embeds c) <=? S (currentPage c))%nat
                   then O else S (currentPage c)) = page).
  { unfold page. rewrite Nat.add_1_r.
    destruct (Nat.leb_spec (length (col_embeds c)) (S (currentPage c))).
    - replace (S (currentPage c)) with (length (col_embeds c)) by lia.
      rewrite Nat.Div0.mod_same. reflexivity.
    - rewrite Nat.mod_small by lia. reflexivity. }
  rewrite Hpage. reflexivity.
Qed.

Lemma accepted_same_user (c c' : Collector)
    (clicks : list ComponentInteraction) :
  col_user c' = col_user c -> accepted c' clicks = accepted c clicks.
Proof.
  intros Hu. unfold accepted. f_equal.
  assert (Hf : forall click, listFilter c' click = listFilter c click).
  { intros click. unfold listFilter. by rewrite Hu. }
  induction clicks as [|click rest IH]; simpl; [reflexivity|].
  rewrite Hf, IH. reflexivity.
Qed.

(** X20. Over any sequence of clicks, the collector of a listing counts
    the clicks on Next Page by its owner and no others: it shows one
    page per such click, its cursor ends at the start plus their number
    modulo the number of pages, and the last page shown is the one at
    the cursor. *)
Theorem collector_follows_next_clicks (clicks : list ComponentInteraction) :
  forall (c : Collector) (w : World),
    (currentPage c < length (col_embeds c))%nat ->
    exists c' updates,
      collectorClicks c clicks w
      = (Ok c', withOut (out w ++ map OutUpdate updates) w)
      /\ col_user c' = col_user c
      /\ col_embeds c' = col_embeds c
      /\ length updates = accepted c clicks
      /\ currentPage c'
         = ((currentPage c + accepted c clicks)
            mod length (col_embeds c))%nat
      /\ forall m, last updates = Some m ->
           embeds m = pageAt (col_embeds c) (currentPage c').
Proof.
  induction clicks as [|click rest IH]; intros c w Hlt.
  - exists c, []. simpl. unfold ret, accepted. simpl.
    replace (withOut (out w ++ []) w) with w
      by (destruct w; unfold withOut; simpl; by rewrite app_nil_r).
    rewrite Nat.add_0_r, Nat.mod_small by exact Hlt.
    repeat split; try reflexivity. intros m Hm. discriminate Hm.
  - cbn [collectorClicks]. unfold bind, collectorClick.
    unfold accepted. cbn [List.filter].
    destruct (listFilter c click) eqn:Hf.
    + rewrite (listOnCollect_run c w Hlt). cbv zeta.
      set (c1 := {| col_user := col_user c; col_embeds := col_embeds c;
                    currentPage := ((currentPage c + 1)
                                    mod length (col_embeds c))%nat |}).
      set (w1 := withOut _ w).
      destruct (IH c1 w1) as (c' & updates & Hrun & Hu & He & Hlen & Hcur & Hlast).
      { simpl. apply Nat.mod_upper_bound. lia. }
      rewrite Hrun. eexists c', (_ :: updates).
      rewrite (accepted_same_user c c1 rest eq_refl) in Hlen, Hcur.
      fold (accepted c rest). cbn [length].
      split.
      { unfold w1, withOut. simpl. by rewrite <- app_assoc. }
      split; [exact Hu|]. split; [exact He|]. split; [by rewrite Hlen|].
      split.
      { rewrite Hcur. simpl.
        rewrite Nat.Div0.add_mod_idemp_l. f_equal. unfold accepted. lia. }
      intros m Hm. destruct updates as [|u updates].
      * simpl in Hm. injection Hm as <-. simpl.
        rewrite Hcur. simpl in Hlen. rewrite <- Hlen, Nat.add_0_r. simpl.
        by rewrite Nat.Div0.mod_mod.
      * apply Hlast. exact Hm.
    + unfold ret.
      destruct (IH c w Hlt) as (c' & updates & Hrun & Hrest).
      rewrite Hrun. exists c', updates. split; [reflexivity | exact Hrest].
Qed.

Lemma collector_follows_next_clicks_witness :
  let next := {| ci_user_id := "u1"; ci_customId := "insurance_list_next" |} in
  let prev := {| ci_user_id := "u1"; ci_customId := "insurance_list_prev" |} in
  let other := {| ci_user_id := "u2"; ci_customId := "insurance_list_next" |} in
  let e := {| title := "p"; color := 0; description := None;
              thumbnail := None; footer := None; fields := [] |} in
  let c := {| col_user := "u1"; col_embeds := [e; e; e]; currentPage := 0 |} in
  exists c',
    fst (collectorClicks c [next; other; prev; next; next; next] emptyWorld)
    = Ok c'
    /\ currentPage c' = 1%nat.
Proof.
  intros next prev other e c.
  destruct (collector_follows_next_clicks
              [next; other; prev; next; next; next] c emptyWorld)
    as (c' & updates & Hrun & _ & _ & _ & Hcur & _).
  - simpl. lia.
  - exists c'. rewrite Hrun. split; [reflexivity | exact Hcur].
Defined.

(** ** Commands, one after another *)

Lemma handleNew_success (E : Env) (i : Interaction) (w : World) :
  let name := getString i "car_name" in
  let plate := getString i "number_plate" in
  validPlate plate = true ->
  name <> "" ->
  user_tag i <> "" ->
  existsb (hasPlate plate) (db w) = false ->
  fst (handleNewCarInsurance E i w) = Ok tt
  /\ db (snd (handleNewCarInsurance E i w))
     = db w ++ [ {| doc_id := freshId (db w); carName := name;
                    numberPlate := plate;
                    expiryDate := addDays E AsiaKolkata (clock E (ticks w))
                                    (getInteger i "days_left");
                    addedBy := user_tag i;
                    lastUpdated := clock E (S (ticks w)) |} ].
Proof.
  intros name plate Hvalid Hname Htag Hfresh.
  unfold handleNewCarInsurance. cbv zeta. fold name plate.
  rewrite Hvalid. js_run.
  unfold validDoc. cbn [carName numberPlate addedBy].
  rewrite (eqb_empty_false _ Hname), (eqb_empty_false _ Htag),
    (validPlate_nonempty _ Hvalid).
  cbn [negb andb]. rewrite Hfresh. js_run.
  split; reflexivity.
Qed.

Lemma handleNew_duplicate (E : Env) (i : Interaction) (w : World) :
  let name := getString i "car_name" in
  let plate := getString i "number_plate" in
  validPlate plate = true ->
  name <> "" ->
  user_tag i <> "" ->
  existsb (hasPlate plate) (db w) = true ->
  fst (handleNewCarInsurance E i w) = Ok tt
  /\ db (snd (handleNewCarInsurance E i w)) = db w
  /\ exists m line,
       out (snd (handleNewCarInsurance E i w)) = out w ++ [OutReply m; line]
       /\ embedTitle m = Some "❌ DUPLICATE ENTRY".
Proof.
  intros name plate Hvalid Hname Htag Hdup.
  unfold handleNewCarInsurance. cbv zeta. fold name plate.
  rewrite Hvalid. js_run.
  unfold validDoc. cbn [carName numberPlate addedBy].
  rewrite (eqb_empty_false _ Hname), (eqb_empty_false _ Htag),
    (validPlate_nonempty _ Hvalid).
  cbn [negb andb]. rewrite Hdup. js_run.
  split; [reflexivity|]. split; [reflexivity|].
  do 2 eexists. split; [rewrite <- app_assoc; reflexivity | reflexivity].
Qed.

Lemma existsb_snoc_hasPlate (plate : string) (d : list CarInsurance)
    (c : CarInsurance) :
  numberPlate c = plate -> existsb (hasPlate plate) (d ++ [c]) = true.
Proof.
  intros Hc. rewrite existsb_app. simpl. unfold hasPlate at 2.
  rewrite Hc, String.eqb_refl. by rewrite orb_true_r.
Qed.



Lemma handleRemove_run (E : Env) (i : Interaction) (w : World) :
  getString i "password" = "slayers1" ->
  String.prefix "new_car_" (getString i "number_plate") = false ->
  fst (handleRemoveCarInsurance E i w) = Ok tt
  /\ db (snd (handleRemoveCarInsurance E i w))
     = removeFirst (getString i "number_plate") (db w).
Proof.
  intros Hpw Hprefix.
  unfold handleRemoveCarInsurance. cbv zeta.
  rewrite Hprefix, Hpw, String.eqb_refl.
  unfold CarInsurance_findOneAndDelete. js_run.
  destruct (List.find _ (db w)); js_run; split; reflexivity.
Qed.

Lemma removeFirst_snoc_fresh (plate : string) (d : list CarInsurance)
    (c : CarInsurance) :
  existsb (hasPlate plate) d = false ->
  numberPlate c = plate ->
  removeFirst plate (d ++ [c]) = d.
Proof.
  intros Hd Hc. induction d as [|x d IH]; simpl in *.
  - unfold hasPlate. by rewrite Hc, String.eqb_refl.
  - apply orb_false_iff in Hd as [Hx Hd]. rewrite Hx. by rewrite IH.
Qed.



Lemma addDays_hostFixed (E : Env) (t n : Z) :
  hostFixed E -> addDays E HostLocal t n = t + n * MS_PER_DAY.
Proof.
  intros [c Hc]. unfold addDays.
  destruct (Z.eqb_spec n 0) as [->|_]; [lia|].
  rewrite (proj1 (Hc t)), (proj2 (Hc (t + c + n * MS_PER_DAY))). lia.
Qed.

Lemma handleAdd_run (E : Env) (i : Interaction) (w : World)
    (car : CarInsurance) :
  let plate := getString i "number_plate" in
  let n := getInteger i "days_to_add" in
  String.prefix "new_car_" plate = false ->
  List.find (hasPlate plate) (db w) = Some car ->
  let newExpiry := addDays E HostLocal (expiryDate car) n in
  let w' := snd (handleAddCarInsurance E i w) in
  fst (handleAddCarInsurance E i w) = Ok tt
  /\ db w' = updateById (assignDates car newExpiry (clock E (S (ticks w))))
               (db w)
  /\ ticks w' = (ticks w + 3)%nat
  /\ exists m,
       last (out w') = Some (OutReply m)
       /\ fieldValue "⏳ Total Days Left" m
          = Some (pretty (daysLeftAt E (clock E (ticks w)) newExpiry)).
Proof.
  intros plate n Hprefix Hfind newExpiry.
  unfold handleAddCarInsurance. cbv zeta. fold plate n. rewrite Hprefix.
  js_run. rewrite Hfind. js_run. fold newExpiry.
  split; [reflexivity|]. split; [reflexivity|].
  split; [cbn; lia|].
  eexists. split; [apply last_snoc|]. clearbody newExpiry. reflexivity.
Qed.

Lemma handleLess_run (E : Env) (i : Interaction) (w : World)
    (car : CarInsurance) :
  let plate := getString i "number_plate" in
  let n := getInteger i "days_to_subtract" in
  String.prefix "new_car_" plate = false ->
  List.find (hasPlate plate) (db w) = Some car ->
  let candidate := addDays E HostLocal (expiryDate car) (- n) in
  0 <= daysLeftAt E (clock E (ticks w)) candidate ->
  fst (handleLessCarInsurance E i w) = Ok tt
  /\ db (snd (handleLessCarInsurance E i w))
     = updateById (assignDates car candidate (clock E (S (ticks w)))) (db w).
Proof.
  intros plate n Hprefix Hfind candidate Hd.
  unfold handleLessCarInsurance. cbv zeta. fold plate n. rewrite Hprefix.
  js_run. rewrite Hfind. js_run. fold candidate.
  rewrite (proj2 (Z.ltb_ge _ _) Hd). js_run.
  split; reflexivity.
Qed.

Lemma updateById_ids (c : CarInsurance) (d : list CarInsurance) :
  map doc_id (updateById c d) = map doc_id d.
Proof.
  induction d as [|x d IH]; [reflexivity|]. simpl.
  destruct (Nat.eqb (doc_id x) (doc_id c)); simpl; [reflexivity|].
  by rewrite IH.
Qed.


Lemma sampleEnv_hostFixed : hostFixed sampleEnv.
Proof. exists 0. intros t. split; reflexivity. Qed.




(** ** The role gate *)

Lemma command_without_role_is_denied_witness :
  let i := sampleInteraction Command "remove_car_insurance" "AB-12" 0
             ["901"] in
  let w := withDb [sampleCar 1 "AB-12" 1793491200000] emptyWorld in
  exists w',
    interactionCreate sampleEnv (fun _ => ret tt) (fun _ => ret tt)
      (fun _ => ret tt) i w = (Ok tt, w')
    /\ db w' = db w.
Proof.
  intros i w.
  destruct (command_without_role_is_denied sampleEnv (fun _ => ret tt)
              (fun _ => ret tt) (fun _ => ret tt) i w eq_refl eq_refl eq_refl)
    as (w' & Hrun & Hdb & _).
  exists w'. split; [exact Hrun | exact Hdb].
Defined.

(** X25. [checkRoles] accepts a member exactly when the member holds a
    role whose identifier is the value of one of the five variables
    ADMIN, MANAGER, HIGH_COMMAND, FOUNDER and CO_FOUNDER; a variable
    that is not set authorises nobody. *)
Theorem role_gate_accepts_exactly (E : Env) (roles : list string) :
  checkRoles E roles = true
  <-> exists name id,
        In name [ "ADMIN_ROLE_ID"; "MANAGER_ROLE_ID"; "HIGH_COMMAND_ROLE_ID";
                  "FOUNDER_ROLE_ID"; "CO_FOUNDER_ROLE_ID" ]
        /\ process_env E name = Some id
        /\ In id roles.
Proof.
  unfold checkRoles. rewrite existsb_exists. split.
  - intros (x & Hx & Hok). destruct x as [id|]; [|discriminate].
    apply existsb_exists in Hok as (r & Hr & Heq).
    apply String.eqb_eq in Heq. subst r.
    simpl in Hx.
    destruct Hx as [H|[H|[H|[H|[H|[]]]]]];
      eexists _, id; (split; [|split; [exact H | exact Hr]]); simpl; tauto.
  - intros (name & id & Hname & Henv & Hid).
    exists (Some id). split.
    + simpl in Hname. simpl.
      destruct Hname as [<-|[<-|[<-|[<-|[<-|[]]]]]]; rewrite Henv; tauto.
    + apply existsb_exists. exists id. split; [exact Hid|].
      apply String.eqb_refl.
Qed.

(** ** The autocomplete branch *)

(** X26. When no document matches what was typed, the suggestions are
    the single offer to register it, whose value is the text with the
    tag [new_car_] in front, or nothing at all when nothing was
    typed. *)
Theorem autocomplete_offers_registration (E : Env)
    (hA hD hDA : Interaction -> JS unit) (i : Interaction) (w : World) :
  inGuild i = true ->
  kind i = Autocomplete ->
  In (commandName i) plateCommands ->
  regexValid E (getFocused i) = true ->
  List.filter
    (fun car => regexSearchI E (getFocused i) (carName car)
                || regexSearchI E (getFocused i) (numberPlate car))
    (db w) = [] ->
  fst (interactionCreate E hA hD hDA i w) = Ok tt
  /\ exists line,
       out (snd (interactionCreate E hA hD hDA i w))
       = out w
         ++ [OutRespond
               (if String.eqb (getFocused i) "" then []
                else [ {| c_name := "➕ Add New: " +:+ DQ +:+ getFocused i
                                    +:+ DQ;
                          c_value := "new_car_" +:+ getFocused i |} ]);
             line].
Proof.
  intros Hguild Hkind Hcmd Hvalid Hnone.
  assert (Hexists : existsb (String.eqb (commandName i)) plateCommands = true).
  { apply existsb_exists. exists (commandName i).
    split; [exact Hcmd | apply String.eqb_refl]. }
  unfold interactionCreate, autocomplete. rewrite Hguild, Hkind. cbv zeta.
  rewrite Hexists. unfold CarInsurance_search. js_eval.
  rewrite Hvalid, Hnone. cbn [take mapM]. js_run. cbn [length Nat.eqb andb].
  destruct (String.eqb (getFocused i) ""); js_run;
    (split; [reflexivity|]); eexists; rewrite <- app_assoc; reflexivity.
Qed.

Lemma autocomplete_offers_registration_witness :
  let i := sampleInteraction Autocomplete "add_car_insurance" "ZZ" 0 [] in
  let w := withDb [sampleCar 1 "AB-12" 1793491200000] emptyWorld in
  exists line,
    out (snd (interactionCreate sampleEnv (fun _ => ret tt) (fun _ => ret tt)
                (fun _ => ret tt) i w))
    = [OutRespond [ {| c_name := "➕ Add New: " +:+ DQ +:+ "ZZ" +:+ DQ;
                       c_value := "new_car_ZZ" |} ]; line].
Proof.
  intros i w.
  destruct (autocomplete_offers_registration sampleEnv (fun _ => ret tt)
              (fun _ => ret tt) (fun _ => ret tt) i w eq_refl eq_refl
              ltac:(left; reflexivity) eq_refl eq_refl) as (_ & line & Hout).
  exists line. exact Hout.
Defined.

(** X27. When the database rejects what was typed as a pattern, the
    member is sent nothing, not even the empty list of the handler's
    [catch]: the call of [Logger.error] before it raises a [TypeError],
    and so does the one in the [catch] of the event handler. The state
    is as before. *)
Theorem autocomplete_rejected_pattern (E : Env)
    (hA hD hDA : Interaction -> JS unit) (i : Interaction) (w : World) :
  inGuild i = true ->
  kind i = Autocomplete ->
  In (commandName i) plateCommands ->
  regexValid E (getFocused i) = false ->
  interactionCreate E hA hD hDA i w = (Throw TypeError, w).
Proof.
  intros Hguild Hkind Hcmd Hvalid.
  assert (Hexists : existsb (String.eqb (commandName i)) plateCommands = true).
  { apply existsb_exists. exists (commandName i).
    split; [exact Hcmd | apply String.eqb_refl]. }
  unfold interactionCreate, autocomplete. rewrite Hguild, Hkind. cbv zeta.
  rewrite Hexists. unfold CarInsurance_search. js_eval.
  rewrite Hvalid. reflexivity.
Qed.

Lemma autocomplete_rejected_pattern_witness :
  let E := {| clock := clock sampleEnv; zoneOffset := zoneOffset sampleEnv;
              hostTZA_utc := hostTZA_utc sampleEnv;
              hostTZA_local := hostTZA_local sampleEnv;
              format_DD_MMM_YYYY := format_DD_MMM_YYYY sampleEnv;
              format_DD_MMM_YYYY_hh_mm_A :=
                format_DD_MMM_YYYY_hh_mm_A sampleEnv;
              fromNowText := fromNowText sampleEnv;
              toUpperCase := toUpperCase sampleEnv;
              regexValid := fun p => negb (String.eqb p "(");
              regexSearchI := regexSearchI sampleEnv;
              process_env := process_env sampleEnv;
              channelCached := channelCached sampleEnv |} in
  let i := sampleInteraction Autocomplete "add_car_insurance" "(" 0 [] in
  out (snd (interactionCreate E (fun _ => ret tt) (fun _ => ret tt)
              (fun _ => ret tt) i emptyWorld)) = [].
Proof.
  intros E i.
  rewrite (autocomplete_rejected_pattern E (fun _ => ret tt) (fun _ => ret tt)
             (fun _ => ret tt) i emptyWorld eq_refl eq_refl
             ltac:(left; reflexivity) eq_refl).
  reflexivity.
Defined.

(** ** [chunkArray] for any chunk size *)

(** X28. For any chunk size of at least one, [chunkArray] returns
    consecutive runs of that many elements whose concatenation is the
    array, the last run holding the remainder, and leaves the array
    empty. *)
Theorem chunkArray_any_size (w : World) (r : nat) (a : list CarInsurance)
    (n : Z) :
  1 <= n ->
  arrays w !! r = Some a ->
  exists pages,
    chunkArray r n w = (Ok pages, withArrays (<[r := []]> (arrays w)) w)
    /\ concat pages = a
    /\ (forall k p, pages !! k = Some p -> (S k < length pages)%nat ->
          Z.of_nat (length p) = n)
    /\ (forall p, last pages = Some p ->
          1 <= Z.of_nat (length p) <= n
          /\ Z.of_nat (length p) + n * (Z.of_nat (length pages) - 1)
             = Z.of_nat (length a)).
Proof.
  intros Hn Hr.
  destruct (chunkArrayOn_spec (Z.to_nat n) ltac:(lia) a) as
    (pages & Hrun & Hcat & Hfull & Hlast & _).
  rewrite Z2Nat.id in Hrun by lia.
  exists pages. split; [|split; [exact Hcat|split]].
  - unfold chunkArray. js_eval. rewrite Hr. js_eval. rewrite Hrun.
    js_eval. reflexivity.
  - intros k p Hp Hk. rewrite (Hfull k p Hp Hk). lia.
  - intros p Hp. destruct (Hlast p Hp) as [Hb Hsum].
    split; [lia|].
    assert (Hpos : (1 <= length pages)%nat).
    { destruct pages; [discriminate Hp | simpl; lia]. }
    rewrite <- Hsum. nia.
Qed.

Lemma chunkArray_any_size_witness :
  exists pages,
    chunkArray 0 3
      (withArrays [map (fun n => sampleCar n "AB-12" 0) (seq 0 7)] emptyWorld)
    = (Ok pages, withArrays [[]] emptyWorld)
    /\ map (@length CarInsurance) pages = [3; 3; 1]%nat.
Proof.
  destruct (chunkArray_any_size
              (withArrays [map (fun n => sampleCar n "AB-12" 0) (seq 0 7)]
                 emptyWorld) 0
              (map (fun n => sampleCar n "AB-12" 0) (seq 0 7)) 3
              ltac:(lia) eq_refl) as (pages & Hrun & _).
  exists pages. split; [exact Hrun|].
  vm_compute in Hrun. injection Hrun as <-. reflexivity.
Defined.

(** X29. [chunkArray] does not return exactly when the chunk size is zero
    or negative and the array is not empty: [splice] then removes
    nothing and the loop goes on for ever. *)
Theorem chunkArray_stops_iff (w : World) (r : nat) (a : list CarInsurance)
    (n : Z) :
  arrays w !! r = Some a ->
  (chunkArray r n w = (Diverge, w) <-> n <= 0 /\ a <> [])
  /\ (a = [] -> chunkArray r n w = (Ok [], withArrays (<[r := []]> (arrays w)) w)).
Proof.
  intros Hr. split; [split|].
  - intros Hdiv. apply (chunkArrayOn_stops_iff n a).
    unfold chunkArray in Hdiv. revert Hdiv. js_eval. rewrite Hr. js_eval.
    destruct (chunkArrayOn a n) as [[pages rest]|]; [|reflexivity].
    js_eval. discriminate.
  - intros H. apply (chunkArrayOn_stops_iff n a) in H.
    unfold chunkArray. js_eval. rewrite Hr. js_eval. rewrite H. reflexivity.
  - intros ->. unfold chunkArray. js_eval. rewrite Hr. js_eval. reflexivity.
Qed.

Lemma chunkArray_stops_iff_witness :
  chunkArray 0 0 (withArrays [[sampleCar 1 "AB-12" 0]] emptyWorld)
  = (Diverge, withArrays [[sampleCar 1 "AB-12" 0]] emptyWorld).
Proof.
  destruct (chunkArray_stops_iff
              (withArrays [[sampleCar 1 "AB-12" 0]] emptyWorld) 0
              [sampleCar 1 "AB-12" 0] 0 eq_refl) as [[_ H] _].
  apply H. split; [lia | discriminate].
Defined.
